(** * First-person locomotion and collision avoidance of the museum scene

    A shallow embedding of the [Controls] component (keyboard input,
    velocity integration, eight-ray collision probe, per-frame loop) and of
    the part of three.js' [Vector3] it calls.

    Numbers: JavaScript doubles are modelled as real numbers, so [Math.exp]
    is [exp], [Math.min] is [Rmin] and [Vector3.length] takes a real square
    root.  Rounding is outside the model.

    Mutation: three.js vector methods update their receiver in place and
    return it.  Every mutable object of the component (the refs, the camera,
    the local vectors [forward], [right] and [newPosition]) is threaded
    explicitly, so that a second use of a mutated vector sees the mutated
    value, as in the source. *)

From Stdlib Require Import Reals Lra Psatz.
From stdpp Require Import base decidable list strings gmap.

Local Open Scope R_scope.

(** ** Comparisons of doubles used as conditions *)

Definition gtb (a b : R) : bool := if Rlt_dec b a then true else false.
Definition ltb (a b : R) : bool := if Rlt_dec a b then true else false.

(** ** three.js: Vector3 *)

Module Vector3.

Record t : Type := mk { x : R; y : R; z : R }.

Definition zero : t := mk 0 0 0.

Definition add (this v : t) : t :=
  mk (x this + x v) (y this + y v) (z this + z v).

Definition sub (this v : t) : t :=
  mk (x this - x v) (y this - y v) (z this - z v).

(** [new Vector3().subVectors(a, b)] *)
Definition subVectors (a b : t) : t :=
  mk (x a - x b) (y a - y b) (z a - z b).

Definition multiplyScalar (this : t) (s : R) : t :=
  mk (x this * s) (y this * s) (z this * s).

Definition divideScalar (this : t) (s : R) : t :=
  multiplyScalar this (1 / s).

Definition dot (this v : t) : R :=
  x this * x v + y this * y v + z this * z v.

Definition lengthSq (this : t) : R :=
  x this * x this + y this * y this + z this * z this.

Definition length (this : t) : R := sqrt (lengthSq this).

(** [this.divideScalar(this.length() || 1)] *)
Definition normalize (this : t) : t :=
  divideScalar this
    (if Req_EM_T (length this) 0 then 1 else length this).

(** [this.x += (v.x - this.x) * alpha], and so on *)
Definition lerp (this v : t) (alpha : R) : t :=
  mk (x this + (x v - x this) * alpha)
     (y this + (y v - y this) * alpha)
     (z this + (z v - z this) * alpha).

Definition projectOnVector (this v : t) : t :=
  let denominator := lengthSq v in
  if Req_EM_T denominator 0 then zero
  else multiplyScalar v (dot v this / denominator).

(** [_vector.copy(this).projectOnVector(planeNormal); this.sub(_vector)] *)
Definition projectOnPlane (this planeNormal : t) : t :=
  sub this (projectOnVector this planeNormal).

(** the assignment [this.y = s] *)
Definition setY (this : t) (s : R) : t := mk (x this) s (z this).

(** [(v.x === this.x) && (v.y === this.y) && (v.z === this.z)] *)
Definition equals (this v : t) : bool :=
  (if Req_EM_T (x v) (x this) then true else false)
  && (if Req_EM_T (y v) (y this) then true else false)
  && (if Req_EM_T (z v) (z this) then true else false).

End Vector3.

Module Quaternion.

Record t : Type := mk { x : R; y : R; z : R; w : R }.

Definition identity : t := mk 0 0 0 1.

End Quaternion.

(** [Vector3.applyQuaternion]: [t = 2 cross(q.xyz, v)], then
    [v + q.w t + cross(q.xyz, t)]. *)
Definition applyQuaternion (v : Vector3.t) (q : Quaternion.t) : Vector3.t :=
  let vx := Vector3.x v in
  let vy := Vector3.y v in
  let vz := Vector3.z v in
  let qx := Quaternion.x q in
  let qy := Quaternion.y q in
  let qz := Quaternion.z q in
  let qw := Quaternion.w q in
  let tx := 2 * (qy * vz - qz * vy) in
  let ty := 2 * (qz * vx - qx * vz) in
  let tz := 2 * (qx * vy - qy * vx) in
  Vector3.mk (vx + qw * tx + qy * tz - qz * ty)
             (vy + qw * ty + qz * tx - qx * tz)
             (vz + qw * tz + qx * ty - qy * tx).

(** ** The component's data *)

(** An invisible box mesh: [BoxGeometry(size)] placed at [position].  The
    scene graph the meshes are added to and removed from is not modelled:
    the probe reads [wallColliders] only. *)
Record Mesh : Type := mkMesh { position : Vector3.t; size : Vector3.t }.

(** One entry of the array returned by [Raycaster.intersectObjects].
    [face] is the truthiness of the entry's [face] field. *)
Record Intersection : Type :=
  mkIntersection { distance : R; point : Vector3.t; face : bool }.

(** What one run of the effect closes over: the five leva settings and the
    [isInteracting] prop (the effect's dependencies that are plain values). *)
Record Env : Type := mkEnv {
  moveSpeed : R;
  acceleration : R;
  deceleration : R;
  collisionDistance : R;
  wallSlideForce : R;
  isInteracting : bool
}.

(** The panel's defaults, not interacting. *)
Definition defaults : Env := mkEnv (28 / 10) 15 8 (5 / 10) (98 / 100) false.

(** The [min]/[max] bounds declared for the leva panel. *)
Definition inPanelRange (env : Env) : Prop :=
  1 / 10 <= moveSpeed env <= 10 /\
  1 / 10 <= acceleration env <= 20 /\
  1 / 10 <= deceleration env <= 10 /\
  1 / 10 <= collisionDistance env <= 3 /\
  1 / 10 <= wallSlideForce env <= 1.

(** The refs of the component and the camera they act on.  [closure] is the
    environment of the effect run whose key handlers are registered;
    [staleLoops] are the [animate] closures of earlier effect runs: the
    cleanup removes the key handlers but cancels no animation frame, so each
    of them keeps rescheduling itself. *)
Record State : Type := mkState {
  velocity : Vector3.t;
  targetVelocity : Vector3.t;
  lastTime : R;
  activeKeys : gset string;
  collisionNormal : Vector3.t;
  wallColliders : list Mesh;
  cameraPosition : Vector3.t;
  cameraQuaternion : Quaternion.t;
  closure : Env;
  staleLoops : list Env
}.

Definition setVelocity (v : Vector3.t) (st : State) : State :=
  mkState v (targetVelocity st) (lastTime st) (activeKeys st)
    (collisionNormal st) (wallColliders st) (cameraPosition st)
    (cameraQuaternion st) (closure st) (staleLoops st).

Definition setTargetVelocity (v : Vector3.t) (st : State) : State :=
  mkState (velocity st) v (lastTime st) (activeKeys st)
    (collisionNormal st) (wallColliders st) (cameraPosition st)
    (cameraQuaternion st) (closure st) (staleLoops st).

Definition setLastTime (r : R) (st : State) : State :=
  mkState (velocity st) (targetVelocity st) r (activeKeys st)
    (collisionNormal st) (wallColliders st) (cameraPosition st)
    (cameraQuaternion st) (closure st) (staleLoops st).

Definition setActiveKeys (ks : gset string) (st : State) : State :=
  mkState (velocity st) (targetVelocity st) (lastTime st) ks
    (collisionNormal st) (wallColliders st) (cameraPosition st)
    (cameraQuaternion st) (closure st) (staleLoops st).

Definition setCollisionNormal (n : Vector3.t) (st : State) : State :=
  mkState (velocity st) (targetVelocity st) (lastTime st) (activeKeys st)
    n (wallColliders st) (cameraPosition st)
    (cameraQuaternion st) (closure st) (staleLoops st).

Definition setWallColliders (ws : list Mesh) (st : State) : State :=
  mkState (velocity st) (targetVelocity st) (lastTime st) (activeKeys st)
    (collisionNormal st) ws (cameraPosition st)
    (cameraQuaternion st) (closure st) (staleLoops st).

Definition setCameraPosition (p : Vector3.t) (st : State) : State :=
  mkState (velocity st) (targetVelocity st) (lastTime st) (activeKeys st)
    (collisionNormal st) (wallColliders st) p
    (cameraQuaternion st) (closure st) (staleLoops st).

Definition setCameraQuaternion (q : Quaternion.t) (st : State) : State :=
  mkState (velocity st) (targetVelocity st) (lastTime st) (activeKeys st)
    (collisionNormal st) (wallColliders st) (cameraPosition st)
    q (closure st) (staleLoops st).

Definition setClosure (env : Env) (olds : list Env) (st : State) : State :=
  mkState (velocity st) (targetVelocity st) (lastTime st) (activeKeys st)
    (collisionNormal st) (wallColliders st) (cameraPosition st)
    (cameraQuaternion st) env olds.

(** ** The wall colliders built by the effect *)

Definition createWallCollider (position size : Vector3.t) (st : State)
  : Mesh * State :=
  let wall := mkMesh position size in
  (wall, setWallColliders (wallColliders st ++ [wall]) st).

Definition wallSpecs : list (Vector3.t * Vector3.t) :=
  [ (Vector3.mk 0 (25 / 10) (-10), Vector3.mk 10 5 (2 / 10));
    (Vector3.mk (-10) (25 / 10) (-5), Vector3.mk (2 / 10) 5 10);
    (Vector3.mk (-10) (25 / 10) 5, Vector3.mk (2 / 10) 5 10);
    (Vector3.mk 10 (25 / 10) (-5), Vector3.mk (2 / 10) 5 10);
    (Vector3.mk 10 (25 / 10) 5, Vector3.mk (2 / 10) 5 10);
    (Vector3.mk (-4) (25 / 10) 0, Vector3.mk 4 5 (2 / 10));
    (Vector3.mk 4 (25 / 10) 0, Vector3.mk 4 5 (2 / 10));
    (Vector3.mk (-5) (25 / 10) (-5), Vector3.mk (2 / 10) 5 5);
    (Vector3.mk (-3) 1 5, Vector3.mk (25 / 10) 2 (25 / 10));
    (Vector3.mk 3 1 5, Vector3.mk (25 / 10) 2 (25 / 10));
    (Vector3.mk (-3) 1 (-5), Vector3.mk (25 / 10) 2 (25 / 10));
    (Vector3.mk 3 1 (-5), Vector3.mk (25 / 10) 2 (25 / 10));
    (Vector3.mk 7 1 (-5), Vector3.mk (25 / 10) 2 (45 / 10)) ].

Definition createWalls (st : State) : State :=
  fold_left (fun s ps => snd (createWallCollider (fst ps) (snd ps) s))
    wallSpecs st.

(** ** updateTargetVelocity *)

(** [forward.multiplyScalar(moveSpeed)] scales the local vector itself, so
    the vector is returned next to the accumulated target and handed to the
    next key's line: in [computeTargetVelocity], [fw] and [rt] pair the
    current [forward] (resp. [right]) with the current [targetVelocity]. *)
Definition addScaled (held : bool) (s : R) (acc : Vector3.t * Vector3.t)
  : Vector3.t * Vector3.t :=
  let '(axis, target) := acc in
  if held then
    let axis := Vector3.multiplyScalar axis s in
    (axis, Vector3.add target axis)
  else (axis, target).

Definition subScaled (held : bool) (s : R) (acc : Vector3.t * Vector3.t)
  : Vector3.t * Vector3.t :=
  let '(axis, target) := acc in
  if held then
    let axis := Vector3.multiplyScalar axis s in
    (axis, Vector3.sub target axis)
  else (axis, target).

Definition has (ks : gset string) (code : string) : bool :=
  bool_decide (code ∈ ks).

(** The vector that [updateTargetVelocity] stores in [targetVelocity]. *)
Definition computeTargetVelocity (env : Env) (keys : gset string)
    (q : Quaternion.t) : Vector3.t :=
  if isInteracting env then Vector3.zero
  else
    let target := Vector3.zero in
    let forward :=
      Vector3.normalize
        (Vector3.setY (applyQuaternion (Vector3.mk 0 0 (-1)) q) 0) in
    let right :=
      Vector3.normalize
        (Vector3.setY (applyQuaternion (Vector3.mk (-1) 0 0) q) 0) in
    let fw := addScaled (has keys "KeyW") (moveSpeed env) (forward, target) in
    let fw := subScaled (has keys "KeyS") (moveSpeed env) fw in
    let rt := addScaled (has keys "KeyA") (moveSpeed env) (right, snd fw) in
    let rt := subScaled (has keys "KeyD") (moveSpeed env) rt in
    let target := snd rt in
    if gtb (Vector3.lengthSq target) (moveSpeed env * moveSpeed env) then
      Vector3.multiplyScalar (Vector3.normalize target) (moveSpeed env)
    else target.

Definition updateTargetVelocity (env : Env) (st : State) : State :=
  setTargetVelocity
    (computeTargetVelocity env (activeKeys st) (cameraQuaternion st)) st.

(** ** Key handlers *)

Definition handleKeyDown (env : Env) (code : string) (st : State) : State :=
  if isInteracting env then st
  else updateTargetVelocity env (setActiveKeys ({[code]} ∪ activeKeys st) st).

Definition handleKeyUp (env : Env) (code : string) (st : State) : State :=
  updateTargetVelocity env (setActiveKeys (activeKeys st ∖ {[code]}) st).

(** ** The scene query

    [Raycaster.set(origin, direction)] followed by
    [Raycaster.intersectObjects(objects)] is three.js code.  It is a
    parameter of the model; what three.js promises about its result is
    stated by the three predicates below and assumed only where used. *)

Definition SceneQuery : Type :=
  Vector3.t -> Vector3.t -> list Mesh -> list Intersection.

(** The result is sorted by distance, closest first. *)
Definition closestFirst (cast : SceneQuery) : Prop :=
  forall origin direction objects h rest,
    cast origin direction objects = h :: rest ->
    forall h', In h' rest -> distance h <= distance h'.

(** An intersection with a [Mesh] carries the face that was hit. *)
Definition meshFaces (cast : SceneQuery) : Prop :=
  forall origin direction objects h,
    In h (cast origin direction objects) -> face h = true.

(** The intersection point lies on the ray, at the reported distance. *)
Definition pointsOnRay (cast : SceneQuery) : Prop :=
  forall origin direction objects h,
    In h (cast origin direction objects) ->
    point h =
    Vector3.add origin (Vector3.multiplyScalar direction (distance h)).

(** The eight directions of [checkCollision]. *)
Definition rays : list Vector3.t :=
  [ Vector3.mk 1 0 0;
    Vector3.mk (-1) 0 0;
    Vector3.mk 0 0 1;
    Vector3.mk 0 0 (-1);
    Vector3.normalize (Vector3.mk 1 0 1);
    Vector3.normalize (Vector3.mk (-1) 0 1);
    Vector3.normalize (Vector3.mk 1 0 (-1));
    Vector3.normalize (Vector3.mk (-1) 0 (-1)) ].

(** The [if (dot < 0)] block of [checkCollision], on the value of
    [velocity.current]; [normal] is the normalized [collisionNormal]. *)
Definition resolveVelocity (env : Env) (velocity normal : Vector3.t)
  : Vector3.t :=
  let dot := Vector3.dot velocity normal in
  if ltb dot 0 then
    let pushBack := Vector3.multiplyScalar normal dot in
    let velocity := Vector3.sub velocity pushBack in
    let parallelVelocity := Vector3.projectOnPlane velocity normal in
    Vector3.multiplyScalar parallelVelocity (wallSlideForce env)
  else velocity.

(** The two branches of the integration in [animate]. *)
Definition integrate (env : Env) (deltaTime : R)
    (targetVelocity velocity : Vector3.t) : Vector3.t :=
  if gtb (Vector3.lengthSq targetVelocity) 0 then
    let lerpFactor := 1 - exp (- acceleration env * deltaTime) in
    Vector3.lerp velocity targetVelocity lerpFactor
  else
    let decelerationFactor := exp (- deceleration env * deltaTime) in
    Vector3.multiplyScalar velocity decelerationFactor.

(** What can happen to a mounted component. *)
Inductive Event : Type :=
| KeyDown (code : string)
| KeyUp (code : string)
| AnimationFrame (currentTime : R)
| StaleFrame (i : nat) (currentTime : R)
| Rerender (env : Env) (currentTime : R)
| CameraTurn (q : Quaternion.t).

Section Controls.

Variable intersectObjects : SceneQuery.

(** One iteration of [for (const direction of rays)]: the pair is
    [hasCollision] and the value of [collisionNormal.current]. *)
Definition castRay (env : Env) (newPosition : Vector3.t)
    (objects : list Mesh) (acc : bool * Vector3.t)
    (direction : Vector3.t) : bool * Vector3.t :=
  match intersectObjects newPosition direction objects with
  | first :: _ =>
      if ltb (distance first) (collisionDistance env) then
        (true,
         if face first then
           let pushDirection :=
             Vector3.normalize
               (Vector3.subVectors newPosition (point first)) in
           Vector3.add (snd acc) pushDirection
         else snd acc)
      else acc
  | [] => acc
  end.

(** The loop of [checkCollision], started from [hasCollision = false] and
    [collisionNormal = (0, 0, 0)]. *)
Definition probe (env : Env) (newPosition : Vector3.t)
    (objects : list Mesh) : bool * Vector3.t :=
  fold_left (castRay env newPosition objects) rays (false, Vector3.zero).

(** [checkCollision(newPosition)]: the result, the updated [newPosition]
    argument, and the refs. *)
Definition checkCollision (env : Env) (newPosition : Vector3.t)
    (st : State) : bool * Vector3.t * State :=
  let '(hasCollision, accumulated) :=
    probe env newPosition (wallColliders st) in
  let st := setCollisionNormal accumulated st in
  if hasCollision then
    let normal := Vector3.normalize (collisionNormal st) in
    let st := setCollisionNormal normal st in
    let st := setVelocity (resolveVelocity env (velocity st) normal) st in
    let pushDistance := collisionDistance env - 5 / 100 in
    let scaled := Vector3.multiplyScalar (collisionNormal st) pushDistance in
    let st := setCollisionNormal scaled st in
    (true, Vector3.add newPosition scaled, st)
  else (false, newPosition, st).

(** [Math.min((currentTime - lastTime.current) / 1000, 0.1)] *)
Definition frameDelta (currentTime : R) (st : State) : R :=
  Rmin ((currentTime - lastTime st) / 1000) (1 / 10).

(** One call of [animate], with [performance.now()] returning
    [currentTime].  Rescheduling is left to the caller. *)
Definition animate (env : Env) (currentTime : R) (st : State) : State :=
  let deltaTime := frameDelta currentTime st in
  let st := setLastTime currentTime st in
  let st :=
    setVelocity
      (integrate env deltaTime (targetVelocity st) (velocity st)) st in
  if gtb (Vector3.lengthSq (velocity st)) (1 / 10000)
     && negb (isInteracting env) then
    let newPosition :=
      Vector3.add (cameraPosition st)
        (Vector3.multiplyScalar (velocity st) deltaTime) in
    let '(collided, newPosition, st) := checkCollision env newPosition st in
    if collided then st else setCameraPosition newPosition st
  else st.

(** The function returned by the effect: the key handlers go, the wall
    array is emptied; the animation loop of the closure is not stopped. *)
Definition cleanup (st : State) : State :=
  setClosure (closure st) (staleLoops st ++ [closure st])
    (setWallColliders [] st).

(** The body of the effect for the dependencies [env]: build the walls,
    register the handlers of this closure, call [animate()] once. *)
Definition effect (env : Env) (currentTime : R) (st : State) : State :=
  let st := createWalls st in
  let st := setClosure env (staleLoops st) st in
  animate env currentTime st.

(** A dependency of the effect changed (for instance [isInteracting]):
    cleanup of the previous run, then the effect with the new values. *)
Definition rerender (env : Env) (currentTime : R) (st : State) : State :=
  effect env currentTime (cleanup st).

(** The refs as created on the first render, before the effect ran. *)
Definition initial (env : Env) (now : R) (position : Vector3.t)
    (q : Quaternion.t) : State :=
  mkState Vector3.zero Vector3.zero now ∅ Vector3.zero [] position q env [].

Definition mount (env : Env) (now currentTime : R) (position : Vector3.t)
    (q : Quaternion.t) : State :=
  effect env currentTime (initial env now position q).

Definition step (st : State) (ev : Event) : State :=
  match ev with
  | KeyDown code => handleKeyDown (closure st) code st
  | KeyUp code => handleKeyUp (closure st) code st
  | AnimationFrame currentTime => animate (closure st) currentTime st
  | StaleFrame i currentTime =>
      match staleLoops st !! i with
      | Some env => animate env currentTime st
      | None => st
      end
  | Rerender env currentTime => rerender env currentTime st
  | CameraTurn q => setCameraQuaternion q st
  end.

Definition run (st : State) (evs : list Event) : State :=
  fold_left step evs st.

End Controls.

(** ** Notions used by the statements *)

(** The velocity after the integration of a frame, and the position the
    frame proposes. *)
Definition integrated (env : Env) (now : R) (st : State) : Vector3.t :=
  integrate env (frameDelta now st) (targetVelocity st) (velocity st).

Definition proposed (env : Env) (now : R) (st : State) : Vector3.t :=
  Vector3.add (cameraPosition st)
    (Vector3.multiplyScalar (integrated env now st) (frameDelta now st)).

(** The frame tries to move: the integrated velocity is above the
    threshold and the closure is not interacting. *)
Definition moves (env : Env) (now : R) (st : State) : bool :=
  gtb (Vector3.lengthSq (integrated env now st)) (1 / 10000)
  && negb (isInteracting env).

(** The closure [env] with the [isInteracting] prop replaced. *)
Definition withInteracting (b : bool) (env : Env) : Env :=
  mkEnv (moveSpeed env) (acceleration env) (deceleration env)
    (collisionDistance env) (wallSlideForce env) b.

(** The event list contains no resume: every re-run of the effect in it is
    for [isInteracting = true]. *)
Definition staysSuspended (evs : list Event) : Prop :=
  forall env now, In (Rerender env now) evs -> isInteracting env = true.

(** The settings are non-negative and the wall-slide factor is at most 1;
    every setting the panel allows is such. *)
Definition damping (env : Env) : Prop :=
  0 <= moveSpeed env /\ 0 <= acceleration env /\ 0 <= deceleration env /\
  0 <= wallSlideForce env <= 1.

(** Both velocities are within the speed limit of the closure. *)
Definition speedBounded (env : Env) (st : State) : Prop :=
  Vector3.length (velocity st) <= moveSpeed env /\
  Vector3.length (targetVelocity st) <= moveSpeed env.

(** Neither velocity has a vertical component. *)
Definition horizontal (st : State) : Prop :=
  Vector3.y (velocity st) = 0 /\ Vector3.y (targetVelocity st) = 0.

(** The probe as the specification words it: a ray collides when its
    nearest intersection is closer than [collisionDistance]; each colliding
    ray contributes the normalized vector from its intersection point to the
    probed position; the contributions are summed. *)
Definition collides (cast : SceneQuery) (env : Env) (p : Vector3.t)
    (ws : list Mesh) (d : Vector3.t) : bool :=
  match cast p d ws with
  | nearest :: _ => ltb (distance nearest) (collisionDistance env)
  | [] => false
  end.

Definition pushDirections (cast : SceneQuery) (env : Env) (p : Vector3.t)
    (ws : list Mesh) (ds : list Vector3.t) : list Vector3.t :=
  flat_map
    (fun d =>
       match cast p d ws with
       | nearest :: _ =>
           if ltb (distance nearest) (collisionDistance env)
           then [Vector3.normalize (Vector3.subVectors p (point nearest))]
           else []
       | [] => []
       end) ds.

Definition vsum (l : list Vector3.t) : Vector3.t :=
  fold_right Vector3.add Vector3.zero l.

(** ** Concrete scenes and states *)

(** A scene query that reports no intersection. *)
Definition nothingInReach : SceneQuery := fun _ _ _ => [].

(** A scene query for a narrow obstacle straight ahead: only the ray
    (0, 0, -1) (zero x, negative z) meets it, 0.2 away along the ray. *)
Definition obstacleAhead : SceneQuery := fun origin direction _ =>
  if Req_EM_T (Vector3.x direction) 0 then
    if Rlt_dec (Vector3.z direction) 0 then
      [ mkIntersection (2 / 10)
          (Vector3.add origin (Vector3.multiplyScalar direction (2 / 10)))
          true ]
    else []
  else [].

(** Walking forward at full default speed with KeyW held. *)
Definition walkingForward : State :=
  mkState (Vector3.mk 0 0 (- (28 / 10))) (Vector3.mk 0 0 (- (28 / 10))) 0
    {["KeyW"]} Vector3.zero
    (map (fun ps => mkMesh (fst ps) (snd ps)) wallSpecs)
    (Vector3.mk 0 (17 / 10) 6) Quaternion.identity defaults [].

(** Coasting at one unit per second with no key held; the clock of the last
    frame reads 1000 ms. *)
Definition coasting : State :=
  mkState (Vector3.mk 1 0 0) Vector3.zero 1000 ∅ Vector3.zero []
    (Vector3.mk 0 (17 / 10) 6) Quaternion.identity defaults [].

(** Suspended, with KeyW still recorded as held. *)
Definition inspecting : State :=
  mkState (Vector3.mk 0 0 (- (28 / 10))) (Vector3.mk 0 0 (- (28 / 10))) 0
    {["KeyW"]} Vector3.zero
    (map (fun ps => mkMesh (fst ps) (snd ps)) wallSpecs)
    (Vector3.mk 0 (17 / 10) 6) Quaternion.identity
    (withInteracting true defaults) [defaults].

(** ** App: the keys highlighted by the on-screen arrows *)

Module App.

(** The [activeKeys] state of [App] and the [isInteracting] value its key
    handlers close over. *)
Record State : Type := mk { activeKeys : gset string; isInteracting : bool }.

(** [setActiveKeys(prev => new Set(prev).add(e.code))], when not
    interacting. *)
Definition handleKeyDown (code : string) (st : State) : State :=
  if isInteracting st then st
  else mk ({[code]} ∪ activeKeys st) (isInteracting st).

Definition handleKeyUp (code : string) (st : State) : State :=
  mk (activeKeys st ∖ {[code]}) (isInteracting st).

End App.

(** [App] listens to the same window events as [Controls] and passes its
    [isInteracting] state down as the prop, so a re-run of the [Controls]
    effect for [env] finds [App]'s handlers closed over the same value.
    Animation frames and camera turns do not reach [App]. *)
Definition appStep (st : App.State) (ev : Event) : App.State :=
  match ev with
  | KeyDown code => App.handleKeyDown code st
  | KeyUp code => App.handleKeyUp code st
  | Rerender env _ => App.mk (App.activeKeys st) (isInteracting env)
  | _ => st
  end.

Definition appRun (st : App.State) (evs : list Event) : App.State :=
  fold_left appStep evs st.

(** ** Museum: the saved viewpoint and the selection *)

Module Euler.

Record t : Type := mk { x : R; y : R; z : R; order : string }.

End Euler.

Module Museum.

(** The camera, the refs [lastPosition] and [lastRotation], the
    [selectedObjectId] state ([None] for [null]) and the [selectionMode]
    switch of the panel. *)
Record State : Type := mk {
  cameraPosition : Vector3.t;
  cameraRotation : Euler.t;
  lastPosition : Vector3.t;
  lastRotation : Euler.t;
  selectedObjectId : option Z;
  selectionMode : bool
}.

(** The effect on [camera]: the first viewpoint. *)
Definition initCamera (st : State) : State :=
  if Req_EM_T (Vector3.lengthSq (lastPosition st)) 0 then
    let position := Vector3.mk 0 (17 / 10) 8 in
    mk position (cameraRotation st) position (cameraRotation st)
      (selectedObjectId st) (selectionMode st)
  else st.

(** The effect on [orbitControls]: save the viewpoint and move to the
    overview, or restore the saved viewpoint. *)
Definition orbitEffect (orbitControls : bool) (st : State) : State :=
  if orbitControls then
    let st :=
      if negb (Vector3.equals (lastPosition st) Vector3.zero) then
        mk (cameraPosition st) (cameraRotation st)
          (cameraPosition st) (cameraRotation st)
          (selectedObjectId st) (selectionMode st)
      else st in
    mk (Vector3.mk 0 10 20) (cameraRotation st)
      (lastPosition st) (lastRotation st)
      (selectedObjectId st) (selectionMode st)
  else if gtb (Vector3.lengthSq (lastPosition st)) 0 then
    mk (lastPosition st) (lastRotation st)
      (lastPosition st) (lastRotation st)
      (selectedObjectId st) (selectionMode st)
  else st.

(** Whatever moves the camera between two runs of the effects (the orbit
    or pointer-lock controls, the frame loop). *)
Definition moveCamera (position : Vector3.t) (rotation : Euler.t)
    (st : State) : State :=
  mk position rotation (lastPosition st) (lastRotation st)
    (selectedObjectId st) (selectionMode st).

Definition setSelectedObjectId (id : option Z) (st : State) : State :=
  mk (cameraPosition st) (cameraRotation st) (lastPosition st)
    (lastRotation st) id (selectionMode st).

Definition handleObjectSelect (id : Z) (st : State) : State :=
  if negb (selectionMode st) then st
  else
    setSelectedObjectId
      (match selectedObjectId st with
       | Some selected => if Z.eqb id selected then None else Some id
       | None => Some id
       end) st.

(** [hasStopPropagation] is the truthiness of [e.stopPropagation]. *)
Definition handleBackgroundClick (hasStopPropagation : bool) (st : State)
  : State :=
  if hasStopPropagation then setSelectedObjectId None st else st.

(** The effect on [selectionMode]. *)
Definition selectionModeEffect (st : State) : State :=
  if negb (selectionMode st) then setSelectedObjectId None st else st.

(** The panel switch is flipped and the effect runs. *)
Definition setSelectionMode (b : bool) (st : State) : State :=
  selectionModeEffect
    (mk (cameraPosition st) (cameraRotation st) (lastPosition st)
       (lastRotation st) (selectedObjectId st) b).

Inductive Click : Type :=
| ObjectClick (id : Z)
| BackgroundClick (hasStopPropagation : bool)
| PanelSelectionMode (b : bool).

Definition click (st : State) (c : Click) : State :=
  match c with
  | ObjectClick id => handleObjectSelect id st
  | BackgroundClick b => handleBackgroundClick b st
  | PanelSelectionMode b => setSelectionMode b st
  end.

(** The [InteractiveObject] elements of the scene: the id passed to
    [handleObjectSelect] and the [position] prop. *)
Definition interactiveObjects : list (Z * Vector3.t) :=
  [ (7%Z, Vector3.mk (-10) (25 / 10) (-5));
    (8%Z, Vector3.mk (-10) (25 / 10) 5);
    (9%Z, Vector3.mk 10 (25 / 10) (-5));
    (10%Z, Vector3.mk 10 (25 / 10) 5);
    (11%Z, Vector3.mk (-4) 0 0);
    (12%Z, Vector3.mk 4 0 0);
    (13%Z, Vector3.mk (-5) (25 / 10) (-5));
    (1%Z, Vector3.mk (-3) (5 / 10) 5);
    (2%Z, Vector3.mk 3 (5 / 10) 5);
    (3%Z, Vector3.mk (-3) (5 / 10) (-5));
    (4%Z, Vector3.mk 3 (5 / 10) (-5));
    (5%Z, Vector3.mk 7 (5 / 10) (-5)) ].

End Museum.

(** ** InteractiveObject: the collision box that follows the mesh *)

Module InteractiveObject.

(** What the lookup reads of a child of the scene. *)
Record Object3D : Type := mkObject3D {
  isMesh : bool;
  isBoxGeometry : bool;
  materialVisible : bool;
  position : Vector3.t
}.

(** [Math.abs(a - b) < 0.1] *)
Definition near (a b : R) : bool := ltb (Rabs (a - b)) (1 / 10).

(** The predicate given to [scene.children.find]; [prop] is the [position]
    prop of the component. *)
Definition isCollisionBox (prop : Vector3.t) (child : Object3D) : bool :=
  isMesh child && isBoxGeometry child && negb (materialVisible child)
  && near (Vector3.x (position child)) (Vector3.x prop)
  && near (Vector3.y (position child)) (Vector3.y prop)
  && near (Vector3.z (position child)) (Vector3.z prop).

(** [Array.prototype.find], returning the place of the element found: the
    element is then updated in place. *)
Fixpoint findIndex (f : Object3D -> bool) (children : list Object3D)
  : option nat :=
  match children with
  | [] => None
  | child :: rest =>
      if f child then Some 0%nat else option_map S (findIndex f rest)
  end.

(** [collisionBox.position.copy(p)] *)
Definition copyPosition (p : Vector3.t) (child : Object3D) : Object3D :=
  mkObject3D (isMesh child) (isBoxGeometry child) (materialVisible child) p.

(** The effect: [meshRef] is the position of [meshRef.current] when the ref
    is set; the result is the [currentPosition] state and the children of
    the scene. *)
Definition effect (meshRef : option Vector3.t) (prop : Vector3.t)
    (currentPosition : Vector3.t) (children : list Object3D)
  : Vector3.t * list Object3D :=
  match meshRef with
  | Some meshPosition =>
      let collisionBox := findIndex (isCollisionBox prop) children in
      (meshPosition,
       match collisionBox with
       | Some i => alter (copyPosition meshPosition) i children
       | None => children
       end)
  | None => (currentPosition, children)
  end.

End InteractiveObject.

(** A wall collider of [Controls] as a child of the scene: a mesh with a
    box geometry and an invisible material. *)
Definition asSceneChild (wall : Mesh) : InteractiveObject.Object3D :=
  InteractiveObject.mkObject3D true true false (position wall).

(** ** More notions used by the statements *)

(** The colliders one run of the effect builds. *)
Definition builtWalls : list Mesh :=
  map (fun ps => mkMesh (fst ps) (snd ps)) wallSpecs.

(** The camera's forward and right directions as [updateTargetVelocity]
    derives them. *)
Definition forwardOf (q : Quaternion.t) : Vector3.t :=
  Vector3.normalize
    (Vector3.setY (applyQuaternion (Vector3.mk 0 0 (-1)) q) 0).

Definition rightOf (q : Quaternion.t) : Vector3.t :=
  Vector3.normalize
    (Vector3.setY (applyQuaternion (Vector3.mk (-1) 0 0) q) 0).

(** [n] frames of the closure [env], one every [delta] milliseconds. *)
Definition frames (cast : SceneQuery) (env : Env) (delta : R) (n : nat)
    (st : State) : State :=
  Nat.iter n (fun s => animate cast env (lastTime s + delta) s) st.

(** Nothing is selected while the selection mode is off. *)
Definition nothingSelectedWhenOff (st : Museum.State) : Prop :=
  Museum.selectionMode st = false -> Museum.selectedObjectId st = None.

(** The mesh is at least 0.1 away from the [position] prop on some axis. *)
Definition movedAway (prop meshPosition : Vector3.t) : Prop :=
  InteractiveObject.near (Vector3.x meshPosition) (Vector3.x prop) = false \/
  InteractiveObject.near (Vector3.y meshPosition) (Vector3.y prop) = false \/
  InteractiveObject.near (Vector3.z meshPosition) (Vector3.z prop) = false.

(** The number of effect re-runs among the events. *)
Definition rerenders (evs : list Event) : nat :=
  fold_right
    (fun ev n => match ev with Rerender _ _ => S n | _ => n end) 0%nat evs.

(** The arrows of [App] with KeyW shown as held. *)
Definition arrows : App.State := App.mk {["KeyW"]} false.

(** A visitor looking around from (2, 1.7, 3), before any effect ran. *)
Definition visitor : Museum.State :=
  Museum.mk (Vector3.mk 2 (17 / 10) 3) (Euler.mk 0 1 0 "XYZ")
    Vector3.zero (Euler.mk 0 0 0 "XYZ") None false.

(** A camera put exactly at the origin, with a viewpoint saved earlier. *)
Definition atOrigin : Museum.State :=
  Museum.mk Vector3.zero (Euler.mk 0 1 0 "XYZ")
    (Vector3.mk 0 (17 / 10) 8) (Euler.mk 0 0 0 "XYZ") None false.

(** Selection mode on, object 3 selected. *)
Definition selecting : Museum.State :=
  Museum.mk (Vector3.mk 2 (17 / 10) 3) (Euler.mk 0 1 0 "XYZ")
    (Vector3.mk 0 (17 / 10) 8) (Euler.mk 0 0 0 "XYZ") (Some 3%Z) true.

(** A scene with a visible mesh and the collider of the left front wall. *)
Definition smallScene : list InteractiveObject.Object3D :=
  [ InteractiveObject.mkObject3D true true true
      (Vector3.mk (-10) (25 / 10) (-5));
    asSceneChild
      (mkMesh (Vector3.mk (-10) (25 / 10) (-5))
         (Vector3.mk (2 / 10) 5 10)) ].

(** * Properties *)

(** ** Comparisons *)

Lemma gtb_true (a b : R) : b < a -> gtb a b = true.
Proof. intros H. unfold gtb. destruct (Rlt_dec b a); [reflexivity | lra]. Qed.

Lemma gtb_false (a b : R) : a <= b -> gtb a b = false.
Proof. intros H. unfold gtb. destruct (Rlt_dec b a); [lra | reflexivity]. Qed.

Lemma ltb_true (a b : R) : a < b -> ltb a b = true.
Proof. intros H. unfold ltb. destruct (Rlt_dec a b); [reflexivity | lra]. Qed.

Lemma ltb_false (a b : R) : b <= a -> ltb a b = false.
Proof. intros H. unfold ltb. destruct (Rlt_dec a b); [lra | reflexivity]. Qed.

Lemma gtb_spec (a b : R) : gtb a b = true <-> b < a.
Proof.
  unfold gtb. destruct (Rlt_dec b a); split; intros; try discriminate; tauto.
Qed.

Lemma ltb_spec (a b : R) : ltb a b = true <-> a < b.
Proof.
  unfold ltb. destruct (Rlt_dec a b); split; intros; try discriminate; tauto.
Qed.

Lemma has_true (ks : gset string) (code : string) :
  code ∈ ks -> has ks code = true.
Proof. intros H. unfold has. apply bool_decide_eq_true_2. exact H. Qed.

Lemma has_false (ks : gset string) (code : string) :
  code ∉ ks -> has ks code = false.
Proof. intros H. unfold has. apply bool_decide_eq_false_2. exact H. Qed.

(** ** Held keys as a set *)

Lemma released_absent (ks : gset string) (code : string) :
  code ∉ ks ∖ {[code]}.
Proof.
  rewrite elem_of_difference, elem_of_singleton. intros [_ H]. apply H.
  reflexivity.
Qed.

Lemma absent_after_release (ks : gset string) (c code : string) :
  code ∉ ks -> code ∉ ks ∖ {[c]}.
Proof. rewrite elem_of_difference. intros H [H' _]. exact (H H'). Qed.

Lemma absent_after_press (ks : gset string) (c code : string) :
  c <> code -> code ∉ ks -> code ∉ {[c]} ∪ ks.
Proof.
  rewrite elem_of_union, elem_of_singleton. intros Hc H [E|H'].
  - apply Hc. symmetry. exact E.
  - exact (H H').
Qed.

Lemma held_left (a b : string) : a ∈ ({[a; b]} : gset string).
Proof. apply elem_of_union_l, elem_of_singleton. reflexivity. Qed.

Lemma held_right (a b : string) : b ∈ ({[a; b]} : gset string).
Proof. apply elem_of_union_r, elem_of_singleton. reflexivity. Qed.

Lemma held_neither (a b c : string) :
  c <> a -> c <> b -> c ∉ ({[a; b]} : gset string).
Proof.
  rewrite elem_of_union, !elem_of_singleton. intros Ha Hb [E|E]; auto.
Qed.

(** ** Vectors *)

Lemma vec_eq (a b : Vector3.t) :
  Vector3.x a = Vector3.x b -> Vector3.y a = Vector3.y b ->
  Vector3.z a = Vector3.z b -> a = b.
Proof. destruct a, b; simpl; intros; subst; reflexivity. Qed.

Lemma lengthSq_nonneg (v : Vector3.t) : 0 <= Vector3.lengthSq v.
Proof. unfold Vector3.lengthSq. nra. Qed.

Lemma length_nonneg (v : Vector3.t) : 0 <= Vector3.length v.
Proof. apply sqrt_pos. Qed.

Lemma lengthSq_dot (v : Vector3.t) : Vector3.lengthSq v = Vector3.dot v v.
Proof. reflexivity. Qed.

Lemma length_sqr (v : Vector3.t) :
  Vector3.length v * Vector3.length v = Vector3.lengthSq v.
Proof. apply sqrt_sqrt, lengthSq_nonneg. Qed.

Lemma length_zero_iff (v : Vector3.t) :
  Vector3.length v = 0 <-> Vector3.lengthSq v = 0.
Proof.
  split; intros H.
  - rewrite <- length_sqr, H. lra.
  - unfold Vector3.length. rewrite H. apply sqrt_0.
Qed.

Lemma lengthSq_zero_iff (v : Vector3.t) :
  Vector3.lengthSq v = 0 <-> v = Vector3.zero.
Proof.
  split; intros H.
  - destruct v as [a b c]. unfold Vector3.lengthSq in H. simpl in H.
    apply vec_eq; simpl; nra.
  - subst v. unfold Vector3.lengthSq. simpl. lra.
Qed.

(** A bound on the length is a bound on the squared length. *)
Lemma length_le_iff (v : Vector3.t) (s : R) :
  0 <= s -> (Vector3.length v <= s <-> Vector3.lengthSq v <= s * s).
Proof.
  intros Hs. pose proof (length_nonneg v) as Hl.
  pose proof (length_sqr v) as Hq. split; intros H.
  - rewrite <- Hq. nra.
  - destruct (Rle_dec (Vector3.length v) s) as [|Hn]; [assumption|].
    exfalso. apply Rnot_le_lt in Hn. nra.
Qed.

Lemma lengthSq_multiplyScalar (v : Vector3.t) (s : R) :
  Vector3.lengthSq (Vector3.multiplyScalar v s) = s * s * Vector3.lengthSq v.
Proof. unfold Vector3.lengthSq, Vector3.multiplyScalar. simpl. ring. Qed.

Lemma normalize_zero : Vector3.normalize Vector3.zero = Vector3.zero.
Proof.
  unfold Vector3.normalize, Vector3.divideScalar, Vector3.multiplyScalar.
  apply vec_eq; simpl; lra.
Qed.

(** Away from the zero vector [normalize] divides by the length. *)
Lemma normalize_nonzero (v : Vector3.t) :
  Vector3.lengthSq v <> 0 ->
  Vector3.normalize v = Vector3.multiplyScalar v (1 / Vector3.length v).
Proof.
  intros H. unfold Vector3.normalize, Vector3.divideScalar.
  destruct (Req_EM_T (Vector3.length v) 0) as [E|E]; [|reflexivity].
  apply length_zero_iff in E. contradiction.
Qed.

Lemma lengthSq_normalize (v : Vector3.t) :
  Vector3.lengthSq v <> 0 -> Vector3.lengthSq (Vector3.normalize v) = 1.
Proof.
  intros H. rewrite normalize_nonzero by assumption.
  rewrite lengthSq_multiplyScalar.
  assert (Hl : Vector3.length v <> 0) by (rewrite length_zero_iff; exact H).
  rewrite <- (length_sqr v). field. exact Hl.
Qed.

Lemma length_normalize (v : Vector3.t) :
  Vector3.lengthSq v <> 0 -> Vector3.length (Vector3.normalize v) = 1.
Proof.
  intros H. unfold Vector3.length. rewrite lengthSq_normalize by assumption.
  apply sqrt_1.
Qed.

(** [normalize] never changes which coordinates are zero. *)
Lemma normalize_y (v : Vector3.t) :
  Vector3.y v = 0 -> Vector3.y (Vector3.normalize v) = 0.
Proof.
  intros H. unfold Vector3.normalize, Vector3.divideScalar. simpl.
  rewrite H. ring.
Qed.

(** Either the zero vector or a unit vector. *)
Lemma normalize_cases (v : Vector3.t) :
  Vector3.normalize v = Vector3.zero \/
  Vector3.lengthSq (Vector3.normalize v) = 1.
Proof.
  destruct (Req_EM_T (Vector3.lengthSq v) 0) as [E|E].
  - left. apply lengthSq_zero_iff in E. subst v. apply normalize_zero.
  - right. apply lengthSq_normalize, E.
Qed.

(** ** Target velocity *)

Lemma forward_identity :
  Vector3.normalize
    (Vector3.setY (applyQuaternion (Vector3.mk 0 0 (-1)) Quaternion.identity) 0)
  = Vector3.mk 0 0 (-1).
Proof.
  assert (L : Vector3.length (Vector3.mk 0 0 (-1)) = 1).
  { unfold Vector3.length, Vector3.lengthSq. simpl.
    replace (0 * 0 + 0 * 0 + -1 * -1) with 1 by lra. apply sqrt_1. }
  assert (E : Vector3.setY
                (applyQuaternion (Vector3.mk 0 0 (-1)) Quaternion.identity) 0
              = Vector3.mk 0 0 (-1)).
  { apply vec_eq; simpl; lra. }
  rewrite E. unfold Vector3.normalize. rewrite L.
  destruct (Req_EM_T 1 0); [lra|]. apply vec_eq; simpl; lra.
Qed.

Lemma right_identity :
  Vector3.normalize
    (Vector3.setY (applyQuaternion (Vector3.mk (-1) 0 0) Quaternion.identity) 0)
  = Vector3.mk (-1) 0 0.
Proof.
  assert (L : Vector3.length (Vector3.mk (-1) 0 0) = 1).
  { unfold Vector3.length, Vector3.lengthSq. simpl.
    replace (-1 * -1 + 0 * 0 + 0 * 0) with 1 by lra. apply sqrt_1. }
  assert (E : Vector3.setY
                (applyQuaternion (Vector3.mk (-1) 0 0) Quaternion.identity) 0
              = Vector3.mk (-1) 0 0).
  { apply vec_eq; simpl; lra. }
  rewrite E. unfold Vector3.normalize. rewrite L.
  destruct (Req_EM_T 1 0); [lra|]. apply vec_eq; simpl; lra.
Qed.

(** C1, on the code: with the default settings and the camera in its
    initial orientation, holding Forward (KeyW) and Back (KeyS) together
    gives the target velocity (0, 0, 2.8), full speed backwards, not zero:
    the second [forward.multiplyScalar(moveSpeed)] scales the vector that
    the first one already scaled. *)
Theorem opposing_keys_do_not_cancel :
  computeTargetVelocity defaults {["KeyW"; "KeyS"]} Quaternion.identity
  = Vector3.mk 0 0 (28 / 10).
Proof.
  unfold computeTargetVelocity. simpl isInteracting. cbv iota.
  rewrite forward_identity, right_identity.
  rewrite (has_true _ "KeyW") by apply held_left.
  rewrite (has_true _ "KeyS") by apply held_right.
  rewrite (has_false _ "KeyA") by (apply held_neither; discriminate).
  rewrite (has_false _ "KeyD") by (apply held_neither; discriminate).
  cbn [addScaled subScaled snd fst moveSpeed defaults].
  set (t := Vector3.sub _ _).
  assert (Et : t = Vector3.mk 0 0 (504 / 100)).
  { subst t. apply vec_eq; simpl; lra. }
  rewrite Et. clear t Et.
  assert (Q : Vector3.lengthSq (Vector3.mk 0 0 (504 / 100))
              = (504 / 100) * (504 / 100)).
  { unfold Vector3.lengthSq. simpl. lra. }
  rewrite gtb_true by (rewrite Q; lra).
  assert (L : Vector3.length (Vector3.mk 0 0 (504 / 100)) = 504 / 100).
  { unfold Vector3.length. rewrite Q. apply sqrt_square. lra. }
  unfold Vector3.normalize. rewrite L.
  destruct (Req_EM_T (504 / 100) 0); [lra|].
  apply vec_eq; simpl; lra.
Qed.

(** In the initial orientation, Forward and Back held together cancel for
    one speed setting only, [moveSpeed = 1]. *)
Lemma opposing_keys_cancel_only_at_unit_speed (env : Env) :
  isInteracting env = false ->
  0 < moveSpeed env ->
  (computeTargetVelocity env {["KeyW"; "KeyS"]} Quaternion.identity
   = Vector3.zero
   <-> moveSpeed env = 1).
Proof.
  intros Hi Hs. unfold computeTargetVelocity. rewrite Hi. cbv zeta.
  rewrite forward_identity, right_identity.
  rewrite (has_true _ "KeyW") by apply held_left.
  rewrite (has_true _ "KeyS") by apply held_right.
  rewrite (has_false _ "KeyA") by (apply held_neither; discriminate).
  rewrite (has_false _ "KeyD") by (apply held_neither; discriminate).
  cbn [addScaled subScaled snd fst].
  set (s := moveSpeed env) in *.
  set (t := Vector3.sub _ _).
  assert (Et : t = Vector3.mk 0 0 (s * s - s)).
  { subst t. apply vec_eq; simpl; ring. }
  rewrite Et. clear t Et.
  assert (Q : Vector3.lengthSq (Vector3.mk 0 0 (s * s - s))
              = (s * s - s) * (s * s - s)).
  { unfold Vector3.lengthSq. simpl. ring. }
  destruct (gtb _ _) eqn:G.
  - apply gtb_spec in G. rewrite Q in G. split.
    + intros E. apply (f_equal Vector3.lengthSq) in E.
      rewrite lengthSq_multiplyScalar, lengthSq_normalize in E.
      * unfold Vector3.lengthSq in E. simpl in E. nra.
      * rewrite Q. nra.
    + intros E. rewrite E in G. lra.
  - split.
    + intros E. apply (f_equal Vector3.z) in E. simpl in E. nra.
    + intros E. rewrite E. apply vec_eq; simpl; ring.
Qed.

(** ** What each operation leaves alone *)

Section Frames.

Variable cast : SceneQuery.

Lemma createWalls_frame (st : State) :
  createWalls st =
  setWallColliders
    (wallColliders st ++
     map (fun ps => mkMesh (fst ps) (snd ps)) wallSpecs) st.
Proof.
  unfold createWalls. generalize wallSpecs as l. intros l.
  revert st. induction l as [|ps l IH]; intros st; simpl.
  - rewrite app_nil_r. destruct st; reflexivity.
  - rewrite IH. unfold createWallCollider, setWallColliders. simpl.
    rewrite <- app_assoc. reflexivity.
Qed.

Lemma checkCollision_frame (env : Env) (p : Vector3.t) (st : State) :
  let st' := snd (checkCollision cast env p st) in
  activeKeys st' = activeKeys st /\
  targetVelocity st' = targetVelocity st /\
  lastTime st' = lastTime st /\
  cameraPosition st' = cameraPosition st /\
  cameraQuaternion st' = cameraQuaternion st /\
  wallColliders st' = wallColliders st /\
  closure st' = closure st /\
  staleLoops st' = staleLoops st.
Proof.
  unfold checkCollision. destruct (probe cast env p (wallColliders st))
    as [[|] acc]; simpl; repeat split; reflexivity.
Qed.

Lemma animate_frame (env : Env) (now : R) (st : State) :
  let st' := animate cast env now st in
  activeKeys st' = activeKeys st /\
  targetVelocity st' = targetVelocity st /\
  cameraQuaternion st' = cameraQuaternion st /\
  wallColliders st' = wallColliders st /\
  closure st' = closure st /\
  staleLoops st' = staleLoops st /\
  lastTime st' = now.
Proof.
  unfold animate.
  set (st1 := setVelocity _ (setLastTime now st)).
  destruct (gtb _ _ && negb _).
  - pose proof (checkCollision_frame env
      (Vector3.add (cameraPosition st1)
         (Vector3.multiplyScalar (velocity st1) (frameDelta now st))) st1)
      as F.
    destruct (checkCollision cast env _ st1) as [[c p] st2].
    simpl in F. destruct F as (F1 & F2 & F3 & F4 & F5 & F6 & F7 & F8).
    destruct c; simpl; rewrite ?F1, ?F2, ?F3, ?F5, ?F6, ?F7, ?F8;
      repeat split; reflexivity.
  - simpl. repeat split; reflexivity.
Qed.

Lemma rerender_frame (env : Env) (now : R) (st : State) :
  let st' := rerender cast env now st in
  activeKeys st' = activeKeys st /\
  targetVelocity st' = targetVelocity st /\
  cameraQuaternion st' = cameraQuaternion st /\
  closure st' = env /\
  staleLoops st' = staleLoops st ++ [closure st].
Proof.
  unfold rerender, effect. rewrite createWalls_frame.
  pose proof (animate_frame env now
    (setClosure env
       (staleLoops (setWallColliders
          (wallColliders (cleanup st) ++
           map (fun ps => mkMesh (fst ps) (snd ps)) wallSpecs)
          (cleanup st)))
       (setWallColliders
          (wallColliders (cleanup st) ++
           map (fun ps => mkMesh (fst ps) (snd ps)) wallSpecs)
          (cleanup st)))) as F.
  simpl in F. destruct F as (F1 & F2 & F3 & F4 & F5 & F6 & F7).
  simpl. rewrite F1, F2, F3, F5, F6. repeat split; reflexivity.
Qed.

(** Only a key-down handled by a closure that is not interacting can add
    a key to the held set. *)
Lemma step_keeps_absent (st : State) (ev : Event) (code : string) :
  code ∉ activeKeys st ->
  isInteracting (closure st) = true \/ ev <> KeyDown code ->
  code ∉ activeKeys (step cast st ev).
Proof.
  intros Hout Hev. destruct ev as [c|c|now|i now|env now|q]; simpl.
  - unfold handleKeyDown. destruct (isInteracting (closure st)) eqn:E.
    + exact Hout.
    + destruct Hev as [Hev|Hev]; [discriminate|].
      simpl. apply absent_after_press; [congruence | exact Hout].
  - unfold handleKeyUp. simpl. apply absent_after_release, Hout.
  - destruct (animate_frame (closure st) now st) as (F & _).
    rewrite F. exact Hout.
  - destruct (staleLoops st !! i) as [env|]; [|exact Hout].
    destruct (animate_frame env now st) as (F & _).
    rewrite F. exact Hout.
  - destruct (rerender_frame env now st) as (F & _).
    rewrite F. exact Hout.
  - exact Hout.
Qed.

Lemma step_closure (st : State) (ev : Event) :
  closure (step cast st ev) =
  match ev with Rerender env _ => env | _ => closure st end.
Proof.
  destruct ev as [c|c|now|i now|env now|q]; simpl.
  - unfold handleKeyDown. destruct (isInteracting (closure st)); reflexivity.
  - reflexivity.
  - apply (animate_frame (closure st) now st).
  - destruct (staleLoops st !! i) as [env|]; [|reflexivity].
    apply (animate_frame env now st).
  - apply (rerender_frame env now st).
  - reflexivity.
Qed.

End Frames.

(** ** Held keys across suspension *)

Lemma run_suspended_keeps_absent (cast : SceneQuery) (evs : list Event)
    (st : State) (code : string) :
  isInteracting (closure st) = true ->
  staysSuspended evs ->
  code ∉ activeKeys st ->
  (code ∉ activeKeys (run cast st evs)) /\
  isInteracting (closure (run cast st evs)) = true.
Proof.
  revert st. induction evs as [|ev evs IH]; intros st Hs Hevs Hout.
  - split; assumption.
  - simpl. apply IH.
    + rewrite step_closure. destruct ev; try exact Hs.
      apply (Hevs env currentTime). left. reflexivity.
    + intros env now Hin. apply (Hevs env now). right. exact Hin.
    + apply step_keeps_absent; [exact Hout | left; exact Hs].
Qed.

(** C8: a key-down handled while suspended leaves the held set as it is; a
    key-up removes its key in every state, suspended or not; hence a key
    released during a suspension is not held after any events that keep the
    component suspended followed by the re-run of the effect that resumes
    it (or any other re-run). *)
Theorem released_key_stays_released (cast : SceneQuery) (st : State)
    (code : string) :
  (isInteracting (closure st) = true ->
   forall pressed,
     activeKeys (step cast st (KeyDown pressed)) = activeKeys st) /\
  activeKeys (step cast st (KeyUp code)) = activeKeys st ∖ {[code]} /\
  (code ∉ activeKeys (step cast st (KeyUp code))) /\
  (isInteracting (closure st) = true ->
   forall evs env now,
     staysSuspended evs ->
     code ∉ activeKeys
       (step cast (run cast (step cast st (KeyUp code)) evs)
          (Rerender env now))).
Proof.
  split; [|split; [|split]].
  - intros Hs pressed. simpl. unfold handleKeyDown. rewrite Hs. reflexivity.
  - reflexivity.
  - simpl. apply released_absent.
  - intros Hs evs env now Hevs.
    assert (Hup : code ∉ activeKeys (step cast st (KeyUp code)))
      by (simpl; apply released_absent).
    destruct (run_suspended_keeps_absent cast evs
                (step cast st (KeyUp code)) code) as [Hout Hs'];
      [rewrite step_closure; exact Hs | exact Hevs | exact Hup |].
    apply step_keeps_absent; [exact Hout | right; discriminate].
Qed.

(** ** Suspension *)

Lemma integrate_zero_target (env : Env) (dt : R) (v : Vector3.t) :
  integrate env dt Vector3.zero v =
  Vector3.multiplyScalar v (exp (- deceleration env * dt)).
Proof.
  unfold integrate. rewrite gtb_false; [reflexivity|].
  unfold Vector3.lengthSq. simpl. lra.
Qed.

Lemma integrate_nonzero_target (env : Env) (dt : R) (t v : Vector3.t) :
  t <> Vector3.zero ->
  integrate env dt t v =
  Vector3.lerp v t (1 - exp (- acceleration env * dt)).
Proof.
  intros H. unfold integrate. rewrite gtb_true; [reflexivity|].
  pose proof (lengthSq_nonneg t) as Hp.
  destruct (Req_EM_T (Vector3.lengthSq t) 0) as [E|E]; [|lra].
  apply lengthSq_zero_iff in E. contradiction.
Qed.

(** A closure that is interacting integrates and commits nothing. *)
Lemma animate_interacting (cast : SceneQuery) (env : Env) (now : R)
    (st : State) :
  isInteracting env = true ->
  animate cast env now st =
  setVelocity
    (integrate env (frameDelta now st) (targetVelocity st) (velocity st))
    (setLastTime now st).
Proof.
  intros H. unfold animate. rewrite H. simpl negb.
  rewrite andb_false_r. reflexivity.
Qed.

Lemma rerender_animate (cast : SceneQuery) (env : Env) (now : R)
    (st : State) :
  rerender cast env now st =
  animate cast env now
    (setClosure env (staleLoops st ++ [closure st])
       (setWallColliders
          (map (fun ps => mkMesh (fst ps) (snd ps)) wallSpecs) st)).
Proof.
  unfold rerender, effect. rewrite createWalls_frame. reflexivity.
Qed.

Lemma multiplyScalar_nonzero (v : Vector3.t) (s : R) :
  s <> 0 -> v <> Vector3.zero -> Vector3.multiplyScalar v s <> Vector3.zero.
Proof.
  intros Hs Hv E. apply Hv. destruct v as [a b c].
  unfold Vector3.multiplyScalar, Vector3.zero in E. simpl in E.
  injection E as E1 E2 E3. apply vec_eq; simpl; nra.
Qed.

(** C2 fails as stated: with KeyW held and a non-zero target velocity, the
    re-run of the effect for [isInteracting = true] leaves KeyW in the held
    set. *)
Lemma suspension_does_not_clear_keys :
  ~ (forall (cast : SceneQuery) (st : State) (env : Env) (now : R),
        activeKeys st <> ∅ ->
        targetVelocity st <> Vector3.zero ->
        isInteracting env = true ->
        activeKeys (rerender cast env now st) = ∅).
Proof.
  intros H.
  specialize (H nothingInReach walkingForward
                (withInteracting true defaults) 16).
  destruct (rerender_frame nothingInReach (withInteracting true defaults) 16
              walkingForward) as (F & _).
  rewrite F in H. simpl in H.
  assert (K : ({["KeyW"]} : gset string) <> ∅)
    by (apply non_empty_singleton_L).
  apply K, H.
  - exact K.
  - intros E. injection E as E. lra.
  - reflexivity.
Qed.

(** C2, amended: the re-run of the effect for [isInteracting = true] keeps
    the held keys and the stored target velocity, and gives the velocity the
    ordinary integration step of its [animate()] call; the next computation
    of the target velocity, at the next key-up, stores zero whatever is
    held; from then on a frame of the suspended closure multiplies the
    velocity by [exp (- deceleration * dt)], which never zeroes it, and the
    camera stays where it is. *)
Theorem suspension_zeroes_target_on_next_key_up (cast : SceneQuery)
    (st : State) (env : Env) (now : R) (code : string) (later : R) :
  isInteracting env = true ->
  let st1 := rerender cast env now st in
  let st2 := step cast st1 (KeyUp code) in
  let st3 := step cast st2 (AnimationFrame later) in
  activeKeys st1 = activeKeys st /\
  targetVelocity st1 = targetVelocity st /\
  velocity st1 =
    integrate env (frameDelta now st) (targetVelocity st) (velocity st) /\
  targetVelocity st2 = Vector3.zero /\
  velocity st2 = velocity st1 /\
  velocity st3 =
    Vector3.multiplyScalar (velocity st2)
      (exp (- deceleration env * frameDelta later st2)) /\
  (velocity st2 <> Vector3.zero -> velocity st3 <> Vector3.zero) /\
  cameraPosition st3 = cameraPosition st2.
Proof.
  intros Hs st1 st2 st3.
  destruct (rerender_frame cast env now st) as (F1 & F2 & _ & F4 & _).
  fold st1 in F1, F2, F4.
  assert (T2 : targetVelocity st2 = Vector3.zero).
  { subst st2. simpl. unfold computeTargetVelocity.
    rewrite F4, Hs. reflexivity. }
  assert (C2 : closure st2 = env).
  { subst st2. rewrite step_closure. exact F4. }
  assert (V3 : st3 =
               setVelocity
                 (Vector3.multiplyScalar (velocity st2)
                    (exp (- deceleration env * frameDelta later st2)))
                 (setLastTime later st2)).
  { unfold st3.
    change (step cast st2 (AnimationFrame later))
      with (animate cast (closure st2) later st2).
    rewrite C2, animate_interacting by exact Hs.
    rewrite T2, integrate_zero_target. reflexivity. }
  repeat split.
  - exact F1.
  - exact F2.
  - unfold st1. rewrite rerender_animate, animate_interacting by exact Hs.
    reflexivity.
  - exact T2.
  - rewrite V3. reflexivity.
  - intros Hv. rewrite V3. simpl.
    apply multiplyScalar_nonzero; [|exact Hv].
    pose proof (exp_pos (- deceleration env * frameDelta later st2)). lra.
  - rewrite V3. reflexivity.
Qed.

(** ** Integration *)

Lemma lerp_zero_factor (v t : Vector3.t) : Vector3.lerp v t 0 = v.
Proof. apply vec_eq; simpl; ring. Qed.

Lemma multiplyScalar_one (v : Vector3.t) : Vector3.multiplyScalar v 1 = v.
Proof. apply vec_eq; simpl; ring. Qed.

(** A frame of length zero integrates nothing. *)
Lemma integrate_zero_delta (env : Env) (t v : Vector3.t) :
  integrate env 0 t v = v.
Proof.
  unfold integrate. destruct (gtb _ _).
  - rewrite Rmult_0_r, exp_0.
    replace (1 - 1) with 0 by ring. apply lerp_zero_factor.
  - rewrite Rmult_0_r, exp_0. apply multiplyScalar_one.
Qed.

(** Two integration steps are one step over the sum of their lengths. *)
Lemma integrate_integrate (env : Env) (d1 d2 : R) (t v : Vector3.t) :
  integrate env d2 t (integrate env d1 t v) = integrate env (d1 + d2) t v.
Proof.
  unfold integrate. destruct (gtb _ _).
  - replace (- acceleration env * (d1 + d2))
      with (- acceleration env * d1 + - acceleration env * d2) by ring.
    rewrite exp_plus. apply vec_eq; simpl; ring.
  - replace (- deceleration env * (d1 + d2))
      with (- deceleration env * d1 + - deceleration env * d2) by ring.
    rewrite exp_plus. apply vec_eq; simpl; ring.
Qed.

Lemma integrate_iter (env : Env) (n : nat) (dt : R) (t v : Vector3.t) :
  Nat.iter n (integrate env dt t) v = integrate env (INR n * dt) t v.
Proof.
  induction n as [|n IH].
  - simpl. rewrite Rmult_0_l, integrate_zero_delta. reflexivity.
  - rewrite S_INR.
    change (Nat.iter (S n) (integrate env dt t) v)
      with (integrate env dt t (Nat.iter n (integrate env dt t) v)).
    rewrite IH, integrate_integrate. f_equal. ring.
Qed.

(** C6: for every starting velocity and every target velocity held fixed,
    ten integration steps of 0.01 s give the velocity of one step of 0.1 s
    (exactly, in real arithmetic): for a non-zero target this is the blend
    with factor [1 - exp (- acceleration * dt)], for the zero target the
    decay by [exp (- deceleration * dt)]. *)
Theorem integration_frame_rate_independent (env : Env) (t v : Vector3.t) :
  Nat.iter 10 (integrate env (1 / 100) t) v = integrate env (1 / 10) t v /\
  (t <> Vector3.zero ->
   integrate env (1 / 10) t v =
   Vector3.lerp v t (1 - exp (- acceleration env * (1 / 10)))) /\
  (t = Vector3.zero ->
   integrate env (1 / 10) t v =
   Vector3.multiplyScalar v (exp (- deceleration env * (1 / 10)))).
Proof.
  split; [|split].
  - rewrite integrate_iter. f_equal. simpl. lra.
  - intros H. apply integrate_nonzero_target, H.
  - intros ->. apply integrate_zero_target.
Qed.

(** ** The frame loop *)

Section Loop.

Variable cast : SceneQuery.

(** [checkCollision] in terms of the probe. *)
Lemma checkCollision_probe (env : Env) (p : Vector3.t) (st : State) :
  checkCollision cast env p st =
  let found := probe cast env p (wallColliders st) in
  let normal := Vector3.normalize (snd found) in
  let scaled :=
    Vector3.multiplyScalar normal (collisionDistance env - 5 / 100) in
  if fst found then
    (true, Vector3.add p scaled,
     setCollisionNormal scaled
       (setVelocity (resolveVelocity env (velocity st) normal) st))
  else (false, p, setCollisionNormal (snd found) st).
Proof.
  unfold checkCollision.
  destruct (probe cast env p (wallColliders st)) as [[|] acc]; reflexivity.
Qed.

Lemma animate_still (env : Env) (now : R) (st : State) :
  moves env now st = false ->
  animate cast env now st =
  setVelocity (integrated env now st) (setLastTime now st).
Proof.
  intros H. unfold animate. unfold moves, integrated in H. simpl.
  rewrite H. reflexivity.
Qed.

Lemma animate_free (env : Env) (now : R) (st : State) :
  moves env now st = true ->
  fst (probe cast env (proposed env now st) (wallColliders st)) = false ->
  animate cast env now st =
  setCameraPosition (proposed env now st)
    (setCollisionNormal
       (snd (probe cast env (proposed env now st) (wallColliders st)))
       (setVelocity (integrated env now st) (setLastTime now st))).
Proof.
  intros H Hp. unfold animate. unfold moves, integrated in H. simpl.
  rewrite H. rewrite checkCollision_probe. simpl.
  unfold proposed, integrated in Hp. rewrite Hp. reflexivity.
Qed.

Lemma animate_blocked (env : Env) (now : R) (st : State) :
  moves env now st = true ->
  fst (probe cast env (proposed env now st) (wallColliders st)) = true ->
  animate cast env now st =
  let normal :=
    Vector3.normalize
      (snd (probe cast env (proposed env now st) (wallColliders st))) in
  setCollisionNormal
    (Vector3.multiplyScalar normal (collisionDistance env - 5 / 100))
    (setVelocity (resolveVelocity env (integrated env now st) normal)
       (setLastTime now st)).
Proof.
  intros H Hp. unfold animate. unfold moves, integrated in H. simpl.
  rewrite H. rewrite checkCollision_probe. simpl.
  unfold proposed, integrated in Hp. rewrite Hp. reflexivity.
Qed.

(** A frame whose raw delta is zero proposes the position it is at. *)
Lemma proposed_zero_delta (env : Env) (now : R) (st : State) :
  frameDelta now st = 0 -> proposed env now st = cameraPosition st.
Proof.
  intros H. unfold proposed. rewrite H. apply vec_eq; simpl; ring.
Qed.

End Loop.

Lemma frameDelta_unclamped (now : R) (st : State) :
  now - lastTime st <= 100 -> frameDelta now st = (now - lastTime st) / 1000.
Proof. intros H. unfold frameDelta. apply Rmin_left. lra. Qed.

Lemma frameDelta_clamped (now : R) (st : State) :
  100 <= now - lastTime st -> frameDelta now st = 1 / 10.
Proof. intros H. unfold frameDelta. apply Rmin_right. lra. Qed.

Lemma probe_nothingInReach (env : Env) (p : Vector3.t) (ws : list Mesh) :
  probe nothingInReach env p ws = (false, Vector3.zero).
Proof. reflexivity. Qed.

(** C7 fails as stated: a frame whose clock reads 0 ms after a frame at
    1000 ms integrates with [deltaTime = -1]; the coasting velocity is
    multiplied by [exp 8] and the camera is moved. *)
Lemma negative_delta_is_not_clamped :
  ~ (forall (cast : SceneQuery) (env : Env) (now : R) (st : State),
        now - lastTime st <= 0 ->
        integrate env (frameDelta now st) (targetVelocity st) (velocity st)
          = velocity st /\
        cameraPosition (animate cast env now st) = cameraPosition st).
Proof.
  intros H.
  destruct (H nothingInReach defaults 0 coasting) as [Hv _].
  { simpl. lra. }
  rewrite frameDelta_unclamped in Hv by (simpl; lra).
  simpl in Hv. rewrite integrate_zero_target in Hv.
  apply (f_equal Vector3.x) in Hv. simpl in Hv.
  match type of Hv with
  | _ * exp ?a = _ => pose proof (exp_increasing 0 a) as Hi
  end.
  rewrite exp_0 in Hi. lra.
Qed.

(** In that frame the camera is moved, against the velocity. *)
Lemma negative_delta_moves_camera :
  Vector3.x (cameraPosition (animate nothingInReach defaults 0 coasting))
  < Vector3.x (cameraPosition coasting).
Proof.
  assert (D : frameDelta 0 coasting = -1).
  { rewrite frameDelta_unclamped by (simpl; lra). simpl. lra. }
  assert (I : integrated defaults 0 coasting
              = Vector3.multiplyScalar (Vector3.mk 1 0 0) (exp 8)).
  { unfold integrated. rewrite D. simpl targetVelocity.
    rewrite integrate_zero_target. simpl. do 2 f_equal. lra. }
  pose proof (exp_increasing 0 8) as E. rewrite exp_0 in E.
  assert (E1 : 1 < exp 8) by lra.
  rewrite animate_free.
  - simpl. unfold proposed. rewrite I, D. simpl. lra.
  - unfold moves. rewrite I, lengthSq_multiplyScalar. simpl.
    rewrite gtb_true; [reflexivity|]. unfold Vector3.lengthSq. simpl. nra.
  - reflexivity.
Qed.

(** C7, amended: a frame whose raw delta is zero leaves the velocity
    unchanged by integration and the camera where it is; the delta is
    limited from above only, so a raw delta below 100 ms, negative ones
    included, is used as it is. *)
Theorem zero_delta_frame_does_not_move (cast : SceneQuery) (env : Env)
    (now : R) (st : State) :
  (now - lastTime st <= 100 ->
   frameDelta now st = (now - lastTime st) / 1000) /\
  (now = lastTime st ->
   integrate env (frameDelta now st) (targetVelocity st) (velocity st)
     = velocity st /\
   cameraPosition (animate cast env now st) = cameraPosition st).
Proof.
  split; [apply frameDelta_unclamped|].
  intros E.
  assert (D : frameDelta now st = 0).
  { rewrite frameDelta_unclamped by lra. rewrite E. lra. }
  split.
  - rewrite D. apply integrate_zero_delta.
  - destruct (moves env now st) eqn:M.
    + destruct (fst (probe cast env (proposed env now st) (wallColliders st)))
        eqn:P.
      * rewrite animate_blocked by assumption. reflexivity.
      * rewrite animate_free by assumption. simpl.
        apply proposed_zero_delta, D.
    + rewrite animate_still by assumption. reflexivity.
Qed.

(** ** A concrete obstacle *)

Lemma obstacleAhead_closestFirst : closestFirst obstacleAhead.
Proof.
  intros o d ws h rest E h' Hin. unfold obstacleAhead in E.
  destruct (Req_EM_T _ _); [destruct (Rlt_dec _ _)|]; try discriminate.
  injection E as _ <-. destruct Hin.
Qed.

Lemma obstacleAhead_meshFaces : meshFaces obstacleAhead.
Proof.
  intros o d ws h Hin. unfold obstacleAhead in Hin.
  destruct (Req_EM_T _ _); [destruct (Rlt_dec _ _)|]; try destruct Hin.
  - subst h. reflexivity.
  - contradiction.
Qed.

Lemma obstacleAhead_pointsOnRay : pointsOnRay obstacleAhead.
Proof.
  intros o d ws h Hin. unfold obstacleAhead in Hin.
  destruct (Req_EM_T _ _); [destruct (Rlt_dec _ _)|]; try destruct Hin.
  - subst h. reflexivity.
  - contradiction.
Qed.

Lemma nothingInReach_closestFirst : closestFirst nothingInReach.
Proof. intros o d ws h rest E. discriminate. Qed.

Lemma nothingInReach_meshFaces : meshFaces nothingInReach.
Proof. intros o d ws h []. Qed.

Lemma nothingInReach_pointsOnRay : pointsOnRay nothingInReach.
Proof. intros o d ws h []. Qed.

Lemma castRay_miss (cast : SceneQuery) (env : Env) (p d : Vector3.t)
    (ws : list Mesh) (acc : bool * Vector3.t) :
  cast p d ws = [] -> castRay cast env p ws acc d = acc.
Proof. intros E. unfold castRay. rewrite E. reflexivity. Qed.

Lemma obstacleAhead_miss (p d : Vector3.t) (ws : list Mesh) :
  Vector3.x d <> 0 \/ 0 <= Vector3.z d -> obstacleAhead p d ws = [].
Proof.
  intros H. unfold obstacleAhead.
  destruct (Req_EM_T _ _); [destruct (Rlt_dec _ _)|]; try reflexivity.
  destruct H; [contradiction | lra].
Qed.

(** The x coordinate of a normalized diagonal is not zero. *)
Lemma diagonal_x (a c : R) :
  a <> 0 -> Vector3.x (Vector3.normalize (Vector3.mk a 0 c)) <> 0.
Proof.
  intros Ha.
  assert (Q : Vector3.lengthSq (Vector3.mk a 0 c) <> 0).
  { unfold Vector3.lengthSq. simpl. nra. }
  rewrite normalize_nonzero by exact Q. simpl.
  assert (L : Vector3.length (Vector3.mk a 0 c) <> 0)
    by (rewrite length_zero_iff; exact Q).
  intros E. apply Rmult_integral in E. destruct E as [E|E]; [contradiction|].
  unfold Rdiv in E. rewrite Rmult_1_l in E.
  apply (Rinv_neq_0_compat _ L), E.
Qed.

Lemma normalize_along_z (c : R) :
  0 < c -> Vector3.normalize (Vector3.mk 0 0 c) = Vector3.mk 0 0 1.
Proof.
  intros Hc.
  assert (L : Vector3.length (Vector3.mk 0 0 c) = c).
  { unfold Vector3.length, Vector3.lengthSq. simpl.
    replace (0 * 0 + 0 * 0 + c * c) with (c * c) by ring.
    apply sqrt_square. lra. }
  unfold Vector3.normalize. rewrite L.
  destruct (Req_EM_T c 0); [lra|].
  apply vec_eq; simpl; try ring. field. lra.
Qed.

(** With the obstacle in reach the probe reports a collision and a push
    straight back, (0, 0, 1). *)
Lemma probe_obstacleAhead (env : Env) (p : Vector3.t) (ws : list Mesh) :
  2 / 10 < collisionDistance env ->
  probe obstacleAhead env p ws = (true, Vector3.mk 0 0 1).
Proof.
  intros Hd. unfold probe, rays. cbn [fold_left].
  rewrite (castRay_miss _ _ _ (Vector3.mk 1 0 0))
    by (apply obstacleAhead_miss; left; simpl; lra).
  rewrite (castRay_miss _ _ _ (Vector3.mk (-1) 0 0))
    by (apply obstacleAhead_miss; left; simpl; lra).
  rewrite (castRay_miss _ _ _ (Vector3.mk 0 0 1))
    by (apply obstacleAhead_miss; right; simpl; lra).
  assert (Hit : castRay obstacleAhead env p ws (false, Vector3.zero)
                  (Vector3.mk 0 0 (-1)) = (true, Vector3.mk 0 0 1)).
  { unfold castRay, obstacleAhead. cbn [Vector3.x Vector3.z].
    destruct (Req_EM_T 0 0); [|lra].
    destruct (Rlt_dec (-1) 0); [|lra].
    cbn [distance face point snd]. rewrite ltb_true by exact Hd.
    f_equal.
    assert (E : Vector3.subVectors p
                  (Vector3.add p
                     (Vector3.multiplyScalar (Vector3.mk 0 0 (-1)) (2 / 10)))
                = Vector3.mk 0 0 (2 / 10)).
    { apply vec_eq; simpl; lra. }
    rewrite E, normalize_along_z by lra.
    apply vec_eq; simpl; lra. }
  rewrite Hit.
  rewrite !castRay_miss; [reflexivity | | | |];
    apply obstacleAhead_miss; left; apply diagonal_x; lra.
Qed.

(** ** A frame that meets an obstacle *)

Lemma walkingForward_integrated :
  integrated defaults 16 walkingForward = Vector3.mk 0 0 (- (28 / 10)).
Proof.
  unfold integrated. simpl targetVelocity. simpl velocity.
  rewrite integrate_nonzero_target.
  - apply vec_eq; simpl; ring.
  - intros E. injection E as E. lra.
Qed.

Lemma walkingForward_moves : moves defaults 16 walkingForward = true.
Proof.
  unfold moves. rewrite walkingForward_integrated. simpl.
  rewrite gtb_true; [reflexivity|]. unfold Vector3.lengthSq. simpl. lra.
Qed.

Lemma walkingForward_blocked :
  fst (probe obstacleAhead defaults (proposed defaults 16 walkingForward)
         (wallColliders walkingForward)) = true.
Proof. rewrite probe_obstacleAhead by (simpl; lra). reflexivity. Qed.

(** C3 fails as stated: walking forward into the obstacle, the frame detects
    the collision and the camera is where it was, not at the proposed
    position pushed out by [collisionDistance - 0.05]. *)
Lemma blocked_frame_commits_nothing :
  ~ (forall (cast : SceneQuery) (env : Env) (now : R) (st : State),
        moves env now st = true ->
        fst (probe cast env (proposed env now st) (wallColliders st)) = true ->
        cameraPosition (animate cast env now st) =
        Vector3.add (proposed env now st)
          (Vector3.multiplyScalar
             (Vector3.normalize
                (snd (probe cast env (proposed env now st)
                        (wallColliders st))))
             (collisionDistance env - 5 / 100))).
Proof.
  intros H.
  specialize (H obstacleAhead defaults 16 walkingForward
                walkingForward_moves walkingForward_blocked).
  rewrite animate_blocked in H
    by (exact walkingForward_moves || exact walkingForward_blocked).
  rewrite probe_obstacleAhead in H by (simpl; lra).
  cbn [snd] in H. rewrite normalize_along_z in H by lra.
  unfold proposed in H. rewrite walkingForward_integrated in H.
  rewrite frameDelta_unclamped in H by (simpl; lra).
  apply (f_equal Vector3.z) in H. simpl in H. lra.
Qed.

(** C3, amended: in a frame that tries to move and whose probe detects a
    collision at the proposed position, the velocity is resolved against the
    aggregate normal, [checkCollision] pushes its argument (the proposed
    position) out along the normal by [collisionDistance - 0.05], and the
    camera position is left as it was: nothing is committed. *)
Theorem blocked_frame_keeps_position (cast : SceneQuery) (env : Env)
    (now : R) (st : State) :
  moves env now st = true ->
  fst (probe cast env (proposed env now st) (wallColliders st)) = true ->
  let normal :=
    Vector3.normalize
      (snd (probe cast env (proposed env now st) (wallColliders st))) in
  let st1 := setVelocity (integrated env now st) (setLastTime now st) in
  velocity (animate cast env now st) =
    resolveVelocity env (integrated env now st) normal /\
  fst (checkCollision cast env (proposed env now st) st1) =
    (true,
     Vector3.add (proposed env now st)
       (Vector3.multiplyScalar normal (collisionDistance env - 5 / 100))) /\
  cameraPosition (animate cast env now st) = cameraPosition st.
Proof.
  intros M P normal st1.
  rewrite animate_blocked by assumption.
  split; [reflexivity|]. split; [|reflexivity].
  rewrite checkCollision_probe. simpl wallColliders.
  cbv zeta. rewrite P. reflexivity.
Qed.

(** ** Resolving the velocity against a normal *)

Lemma dot_multiplyScalar_l (a b : Vector3.t) (s : R) :
  Vector3.dot (Vector3.multiplyScalar a s) b = s * Vector3.dot a b.
Proof. unfold Vector3.dot. simpl. ring. Qed.

Lemma dot_sub_l (a b c : Vector3.t) :
  Vector3.dot (Vector3.sub a b) c = Vector3.dot a c - Vector3.dot b c.
Proof. unfold Vector3.dot. simpl. ring. Qed.

Lemma dot_comm (a b : Vector3.t) : Vector3.dot a b = Vector3.dot b a.
Proof. unfold Vector3.dot. ring. Qed.

(** Against a unit normal, [projectOnPlane] removes the normal component. *)
Lemma projectOnPlane_unit (v n : Vector3.t) :
  Vector3.lengthSq n = 1 ->
  Vector3.projectOnPlane v n =
  Vector3.sub v (Vector3.multiplyScalar n (Vector3.dot v n)).
Proof.
  intros Hn. unfold Vector3.projectOnPlane, Vector3.projectOnVector.
  rewrite Hn. destruct (Req_EM_T 1 0); [lra|].
  rewrite (dot_comm n v). f_equal. f_equal. field.
Qed.

(** Projecting what is already in the plane changes nothing. *)
Lemma projectOnPlane_tangent (v n : Vector3.t) :
  Vector3.dot v n = 0 -> Vector3.projectOnPlane v n = v.
Proof.
  intros H. unfold Vector3.projectOnPlane, Vector3.projectOnVector.
  destruct (Req_EM_T _ _).
  - apply vec_eq; simpl; ring.
  - rewrite (dot_comm n v), H. apply vec_eq; simpl; field; assumption.
Qed.

(** The tangential part is no longer than the vector. *)
Lemma lengthSq_tangential (v n : Vector3.t) :
  Vector3.lengthSq n = 1 ->
  Vector3.lengthSq (Vector3.sub v (Vector3.multiplyScalar n (Vector3.dot v n)))
  = Vector3.lengthSq v - Vector3.dot v n * Vector3.dot v n.
Proof.
  intros Hn. destruct v as [a b c], n as [p q r].
  unfold Vector3.lengthSq, Vector3.dot in *. simpl in *.
  transitivity
    (a * a + b * b + c * c - (a * p + b * q + c * r) * (a * p + b * q + c * r)
     + (a * p + b * q + c * r) * (a * p + b * q + c * r)
       * (p * p + q * q + r * r - 1)).
  - ring.
  - rewrite Hn. ring.
Qed.

Lemma length_le_of_sq (a b : Vector3.t) :
  Vector3.lengthSq a <= Vector3.lengthSq b ->
  Vector3.length a <= Vector3.length b.
Proof. intros H. unfold Vector3.length. apply sqrt_le_1_alt, H. Qed.

(** C4: for every velocity [v] and unit normal [n] with [v . n < 0] (and a
    wall-slide factor between 0 and 1, as the panel allows), the resolution
    is: remove the component along [n], project on the plane orthogonal to
    [n], scale by the wall-slide factor; the resolved velocity has a
    non-negative (in fact zero) dot product with [n], and is no longer than
    the tangential part of [v]. *)
Theorem resolution_slides_along_wall (env : Env) (v n : Vector3.t) :
  Vector3.lengthSq n = 1 ->
  Vector3.dot v n < 0 ->
  0 <= wallSlideForce env <= 1 ->
  let d := Vector3.dot v n in
  let resolved := resolveVelocity env v n in
  resolved =
    Vector3.multiplyScalar
      (Vector3.projectOnPlane
         (Vector3.sub v (Vector3.multiplyScalar n d)) n)
      (wallSlideForce env) /\
  0 <= Vector3.dot resolved n /\
  Vector3.length resolved <= Vector3.length (Vector3.projectOnPlane v n).
Proof.
  intros Hn Hd Hw d resolved.
  assert (E : resolved =
              Vector3.multiplyScalar
                (Vector3.projectOnPlane
                   (Vector3.sub v (Vector3.multiplyScalar n d)) n)
                (wallSlideForce env)).
  { unfold resolved, resolveVelocity. rewrite ltb_true by exact Hd.
    reflexivity. }
  assert (T : Vector3.dot (Vector3.sub v (Vector3.multiplyScalar n d)) n = 0).
  { rewrite dot_sub_l, dot_multiplyScalar_l, <- lengthSq_dot, Hn.
    unfold d. ring. }
  split; [exact E|].
  rewrite projectOnPlane_tangent in E by exact T.
  split.
  - rewrite E, dot_multiplyScalar_l, T. lra.
  - apply length_le_of_sq.
    rewrite E, lengthSq_multiplyScalar, projectOnPlane_unit by exact Hn.
    fold d.
    pose proof (lengthSq_nonneg
                  (Vector3.sub v (Vector3.multiplyScalar n d))) as Hp.
    set (X := Vector3.lengthSq _) in *.
    assert (W : wallSlideForce env * wallSlideForce env <= 1) by nra.
    nra.
Qed.

(** ** The speed limit *)

Lemma inPanelRange_damping (env : Env) : inPanelRange env -> damping env.
Proof. unfold inPanelRange, damping. intros H. repeat split; lra. Qed.

Lemma length_zero : Vector3.length Vector3.zero = 0.
Proof. apply length_zero_iff. unfold Vector3.lengthSq. simpl. ring. Qed.

Lemma exp_nonpos_le_1 (r : R) : r <= 0 -> 0 < exp r <= 1.
Proof.
  intros H. split; [apply exp_pos|].
  destruct H as [H|H].
  - apply exp_increasing in H. rewrite exp_0 in H. lra.
  - subst r. rewrite exp_0. lra.
Qed.

Lemma computeTargetVelocity_bounded (env : Env) (keys : gset string)
    (q : Quaternion.t) :
  0 <= moveSpeed env ->
  Vector3.length (computeTargetVelocity env keys q) <= moveSpeed env.
Proof.
  intros Hs. unfold computeTargetVelocity.
  destruct (isInteracting env); [rewrite length_zero; exact Hs|].
  cbv zeta.
  match goal with
  | |- context [gtb (Vector3.lengthSq ?t) _] => generalize t
  end.
  intros t. apply length_le_iff; [exact Hs|].
  destruct (gtb _ _) eqn:G.
  - apply gtb_spec in G. rewrite lengthSq_multiplyScalar.
    rewrite lengthSq_normalize; [lra|].
    pose proof (Rle_0_sqr (moveSpeed env)) as Hq. unfold Rsqr in Hq. lra.
  - unfold gtb in G. destruct (Rlt_dec _ _); [discriminate | lra].
Qed.

Lemma lengthSq_lerp_bounded (v t : Vector3.t) (a m : R) :
  0 <= a <= 1 ->
  Vector3.lengthSq v <= m -> Vector3.lengthSq t <= m ->
  Vector3.lengthSq (Vector3.lerp v t a) <= m.
Proof.
  intros Ha Hv Ht.
  pose proof (lengthSq_nonneg (Vector3.sub v t)) as Hc.
  assert (E : Vector3.lengthSq (Vector3.lerp v t a) =
              (1 - a) * Vector3.lengthSq v + a * Vector3.lengthSq t
              - a * (1 - a) * Vector3.lengthSq (Vector3.sub v t)).
  { unfold Vector3.lengthSq, Vector3.lerp, Vector3.sub. simpl. ring. }
  rewrite E. clear E.
  set (V := Vector3.lengthSq v) in *. set (T := Vector3.lengthSq t) in *.
  set (X := Vector3.lengthSq (Vector3.sub v t)) in *.
  assert (H1 : 0 <= (1 - a) * (m - V)) by (apply Rmult_le_pos; lra).
  assert (H2 : 0 <= a * (m - T)) by (apply Rmult_le_pos; lra).
  assert (H3 : 0 <= a * (1 - a) * X)
    by (apply Rmult_le_pos; [apply Rmult_le_pos|]; lra).
  lra.
Qed.

Lemma integrate_bounded (env : Env) (dt : R) (t v : Vector3.t) :
  damping env -> 0 <= dt ->
  Vector3.length v <= moveSpeed env ->
  Vector3.length t <= moveSpeed env ->
  Vector3.length (integrate env dt t v) <= moveSpeed env.
Proof.
  intros (Hs & Ha & Hd & _) Hdt Hv Ht.
  apply length_le_iff in Hv; [|exact Hs].
  apply length_le_iff in Ht; [|exact Hs].
  apply length_le_iff; [exact Hs|].
  unfold integrate. destruct (gtb _ _).
  - apply lengthSq_lerp_bounded; try assumption.
    assert (P : 0 <= acceleration env * dt) by (apply Rmult_le_pos; lra).
    destruct (exp_nonpos_le_1 (- acceleration env * dt)) as [? ?]; lra.
  - rewrite lengthSq_multiplyScalar.
    assert (P : 0 <= deceleration env * dt) by (apply Rmult_le_pos; lra).
    destruct (exp_nonpos_le_1 (- deceleration env * dt)) as [? ?]; [lra|].
    pose proof (lengthSq_nonneg v).
    set (e := exp _) in *. set (V := Vector3.lengthSq v) in *.
    assert (e * e <= 1) by nra.
    assert (0 <= (1 - e * e) * V) by (apply Rmult_le_pos; lra).
    lra.
Qed.

(** Resolution against a unit normal never lengthens the velocity. *)
Lemma resolveVelocity_shorter (env : Env) (v n : Vector3.t) :
  0 <= wallSlideForce env <= 1 ->
  Vector3.lengthSq n = 1 ->
  Vector3.lengthSq (resolveVelocity env v n) <= Vector3.lengthSq v.
Proof.
  intros Hw Hn. unfold resolveVelocity. destruct (ltb _ _); [|lra].
  rewrite lengthSq_multiplyScalar, projectOnPlane_tangent.
  - rewrite lengthSq_tangential by exact Hn.
    pose proof (lengthSq_nonneg
                  (Vector3.sub v
                     (Vector3.multiplyScalar n (Vector3.dot v n)))) as Hp.
    rewrite lengthSq_tangential in Hp by exact Hn.
    set (X := Vector3.lengthSq v - _) in *.
    assert (W : wallSlideForce env * wallSlideForce env <= 1) by nra.
    assert (D : 0 <= Vector3.dot v n * Vector3.dot v n) by nra.
    unfold X in *. nra.
  - rewrite dot_sub_l, dot_multiplyScalar_l, <- lengthSq_dot, Hn. ring.
Qed.

Lemma resolveVelocity_zero_normal (env : Env) (v : Vector3.t) :
  resolveVelocity env v Vector3.zero = v.
Proof.
  unfold resolveVelocity. rewrite ltb_false; [reflexivity|].
  unfold Vector3.dot. simpl. lra.
Qed.

Lemma resolveVelocity_bounded (env : Env) (v n : Vector3.t) :
  damping env ->
  Vector3.length v <= moveSpeed env ->
  Vector3.length (resolveVelocity env v (Vector3.normalize n))
    <= moveSpeed env.
Proof.
  intros (Hs & _ & _ & Hw) Hv.
  destruct (normalize_cases n) as [E|E].
  - rewrite E, resolveVelocity_zero_normal. exact Hv.
  - apply Rle_trans with (Vector3.length v); [|exact Hv].
    apply length_le_of_sq, resolveVelocity_shorter; assumption.
Qed.

Lemma frameDelta_nonneg (now : R) (st : State) :
  lastTime st <= now -> 0 <= frameDelta now st.
Proof. intros H. unfold frameDelta. apply Rmin_glb; lra. Qed.

Lemma animate_bounded (cast : SceneQuery) (env : Env) (now : R)
    (st : State) :
  damping env -> lastTime st <= now ->
  speedBounded env st -> speedBounded env (animate cast env now st).
Proof.
  intros Hd Ht [Hv Htv].
  assert (Hi : Vector3.length (integrated env now st) <= moveSpeed env).
  { apply integrate_bounded; try assumption. apply frameDelta_nonneg, Ht. }
  destruct (moves env now st) eqn:M.
  - destruct (fst (probe cast env (proposed env now st) (wallColliders st)))
      eqn:P.
    + rewrite animate_blocked by assumption. split; simpl.
      * apply resolveVelocity_bounded; assumption.
      * exact Htv.
    + rewrite animate_free by assumption. split; simpl; assumption.
  - rewrite animate_still by assumption. split; simpl; assumption.
Qed.

(** C5: under settings the panel allows (non-negative, wall-slide factor at
    most 1), the computed target velocity is never longer than [moveSpeed],
    whatever keys are held (two perpendicular keys included) and whatever
    the orientation; integration and decay with [dt >= 0] and collision
    resolution keep a velocity within [moveSpeed]; hence a whole frame with
    a non-negative time delta and both key handlers preserve the invariant
    that [velocity] and [targetVelocity] are at most [moveSpeed] long. *)
Theorem speed_limit_preserved (cast : SceneQuery) (env : Env) (st : State)
    (now dt : R) (code : string) (keys : gset string) (q : Quaternion.t)
    (t v n : Vector3.t) :
  damping env ->
  Vector3.length (computeTargetVelocity env keys q) <= moveSpeed env /\
  Vector3.length
    (computeTargetVelocity env {["KeyW"; "KeyA"]} q) <= moveSpeed env /\
  (0 <= dt ->
   Vector3.length v <= moveSpeed env ->
   Vector3.length t <= moveSpeed env ->
   Vector3.length (integrate env dt t v) <= moveSpeed env) /\
  (Vector3.length v <= moveSpeed env ->
   Vector3.length (resolveVelocity env v (Vector3.normalize n))
     <= moveSpeed env) /\
  (speedBounded env st ->
   speedBounded env (updateTargetVelocity env st) /\
   speedBounded env (handleKeyDown env code st) /\
   speedBounded env (handleKeyUp env code st) /\
   (lastTime st <= now -> speedBounded env (animate cast env now st))).
Proof.
  intros Hd. pose proof Hd as (Hs & _).
  split; [apply computeTargetVelocity_bounded, Hs|].
  split; [apply computeTargetVelocity_bounded, Hs|].
  split; [intros; apply integrate_bounded; assumption|].
  split; [intros; apply resolveVelocity_bounded; assumption|].
  intros [Hv Ht]. repeat split.
  - exact Hv.
  - simpl. apply computeTargetVelocity_bounded, Hs.
  - unfold handleKeyDown. destruct (isInteracting env); [exact Hv|exact Hv].
  - unfold handleKeyDown. destruct (isInteracting env); [exact Ht|].
    simpl. apply computeTargetVelocity_bounded, Hs.
  - exact Hv.
  - simpl. apply computeTargetVelocity_bounded, Hs.
  - apply animate_bounded; try assumption. split; assumption.
  - apply animate_bounded; try assumption. split; assumption.
Qed.

(** ** The probe *)

Lemma add_zero_r (a : Vector3.t) : Vector3.add a Vector3.zero = a.
Proof. apply vec_eq; simpl; ring. Qed.

Lemma add_assoc (a b c : Vector3.t) :
  Vector3.add (Vector3.add a b) c = Vector3.add a (Vector3.add b c).
Proof. apply vec_eq; simpl; ring. Qed.

Lemma vsum_app (l1 l2 : list Vector3.t) :
  vsum (l1 ++ l2) = Vector3.add (vsum l1) (vsum l2).
Proof.
  induction l1 as [|a l1 IH]; simpl.
  - apply vec_eq; simpl; ring.
  - rewrite IH, add_assoc. reflexivity.
Qed.

Lemma pushDirections_cons (cast : SceneQuery) (env : Env) (p : Vector3.t)
    (ws : list Mesh) (d : Vector3.t) (ds : list Vector3.t) :
  pushDirections cast env p ws (d :: ds) =
  pushDirections cast env p ws [d] ++ pushDirections cast env p ws ds.
Proof.
  unfold pushDirections. cbn [flat_map]. rewrite app_nil_r. reflexivity.
Qed.

(** One iteration of the loop, in the worded form. *)
Lemma castRay_worded (cast : SceneQuery) (env : Env) (p : Vector3.t)
    (ws : list Mesh) (d : Vector3.t) (b : bool) (a : Vector3.t) :
  meshFaces cast ->
  castRay cast env p ws (b, a) d =
  (b || collides cast env p ws d,
   Vector3.add a (vsum (pushDirections cast env p ws [d]))).
Proof.
  intros Hf. unfold castRay, collides, pushDirections. cbn [flat_map snd].
  destruct (cast p d ws) as [|h rest] eqn:E.
  - simpl. rewrite orb_false_r, add_zero_r. reflexivity.
  - assert (F : face h = true).
    { apply (Hf p d ws). rewrite E. left. reflexivity. }
    rewrite F. destruct (ltb _ _); simpl.
    + rewrite orb_true_r, add_zero_r. reflexivity.
    + rewrite orb_false_r, add_zero_r. reflexivity.
Qed.

(** The loop of the source computes the worded probe, from any start. *)
Lemma fold_castRay (cast : SceneQuery) (env : Env) (p : Vector3.t)
    (ws : list Mesh) (ds : list Vector3.t) (b : bool) (a : Vector3.t) :
  meshFaces cast ->
  fold_left (castRay cast env p ws) ds (b, a) =
  (b || existsb (collides cast env p ws) ds,
   Vector3.add a (vsum (pushDirections cast env p ws ds))).
Proof.
  intros Hf. revert b a. induction ds as [|d ds IH]; intros b a.
  - simpl. rewrite orb_false_r, add_zero_r. reflexivity.
  - cbn [fold_left]. rewrite castRay_worded by exact Hf. rewrite IH.
    rewrite (pushDirections_cons cast env p ws d ds).
    rewrite vsum_app, add_assoc. cbn [existsb].
    rewrite orb_assoc. reflexivity.
Qed.

Lemma probe_worded (cast : SceneQuery) (env : Env) (p : Vector3.t)
    (ws : list Mesh) :
  meshFaces cast ->
  probe cast env p ws =
  (existsb (collides cast env p ws) rays,
   vsum (pushDirections cast env p ws rays)).
Proof.
  intros Hf. unfold probe. rewrite fold_castRay by exact Hf.
  f_equal. apply vec_eq; simpl; ring.
Qed.

Lemma rays_horizontal : Forall (fun d => Vector3.y d = 0) rays.
Proof.
  unfold rays. repeat constructor; try reflexivity;
    apply normalize_y; reflexivity.
Qed.

Lemma axis_unit (a b c : R) :
  a * a + b * b + c * c = 1 -> Vector3.length (Vector3.mk a b c) = 1.
Proof.
  intros H. unfold Vector3.length, Vector3.lengthSq. simpl.
  rewrite H. apply sqrt_1.
Qed.

Lemma rays_unit : Forall (fun d => Vector3.length d = 1) rays.
Proof.
  unfold rays. repeat constructor; try (apply axis_unit; ring);
    apply length_normalize; unfold Vector3.lengthSq; simpl; lra.
Qed.

(** C9: the probe casts eight rays, the four axis directions and the four
    normalized diagonals, all horizontal and of length 1; given that the
    scene query returns intersections closest first and that intersections
    with meshes carry a face, it reports a collision exactly when for some
    ray the nearest intersection is closer than [collisionDistance], and the
    normal [checkCollision] then resolves against is the normalization of
    the sum, over the colliding rays, of the normalized vectors from the
    intersection point to the probed position. *)
Theorem probe_reports_nearest_collisions (cast : SceneQuery) (env : Env)
    (p : Vector3.t) (st : State) :
  closestFirst cast ->
  meshFaces cast ->
  rays =
    [ Vector3.mk 1 0 0; Vector3.mk (-1) 0 0;
      Vector3.mk 0 0 1; Vector3.mk 0 0 (-1);
      Vector3.normalize (Vector3.mk 1 0 1);
      Vector3.normalize (Vector3.mk (-1) 0 1);
      Vector3.normalize (Vector3.mk 1 0 (-1));
      Vector3.normalize (Vector3.mk (-1) 0 (-1)) ] /\
  Forall (fun d => Vector3.y d = 0 /\ Vector3.length d = 1) rays /\
  (fst (probe cast env p (wallColliders st)) = true <->
   exists d nearest others,
     In d rays /\
     cast p d (wallColliders st) = nearest :: others /\
     (forall h, In h (cast p d (wallColliders st)) ->
                distance nearest <= distance h) /\
     distance nearest < collisionDistance env) /\
  (fst (probe cast env p (wallColliders st)) = true ->
   let normal :=
     Vector3.normalize
       (vsum (pushDirections cast env p (wallColliders st) rays)) in
   Vector3.normalize (snd (probe cast env p (wallColliders st))) = normal /\
   fst (fst (checkCollision cast env p st)) = true /\
   velocity (snd (checkCollision cast env p st)) =
     resolveVelocity env (velocity st) normal).
Proof.
  intros Hc Hf. split; [reflexivity|]. split.
  { pose proof rays_horizontal as H1. pose proof rays_unit as H2.
    rewrite Forall_forall in *. intros d Hd. split; auto. }
  rewrite probe_worded by exact Hf. cbn [fst snd]. split.
  - rewrite existsb_exists. split.
    + intros (d & Hd & C). unfold collides in C.
      destruct (cast p d (wallColliders st)) as [|h rest] eqn:E;
        [discriminate|].
      exists d, h, rest.
      split; [exact Hd|]. split; [exact E|]. split.
      * intros h' Hin. rewrite E in Hin. destruct Hin as [<-|Hin]; [lra|].
        apply (Hc p d (wallColliders st) h rest E). exact Hin.
      * apply ltb_spec, C.
    + intros (d & h & rest & Hd & E & _ & Hlt).
      exists d. split; [exact Hd|]. unfold collides. rewrite E.
      apply ltb_true, Hlt.
  - intros C. split; [reflexivity|].
    rewrite checkCollision_probe, probe_worded by exact Hf.
    cbn [fst snd]. cbv zeta. rewrite C. split; reflexivity.
Qed.

(** ** Movement stays in the horizontal plane *)

Lemma initial_horizontal (env : Env) (now : R) (position : Vector3.t)
    (q : Quaternion.t) :
  horizontal (initial env now position q).
Proof. split; reflexivity. Qed.

Lemma addScaled_y (held : bool) (s : R) (acc : Vector3.t * Vector3.t) :
  Vector3.y (fst acc) = 0 -> Vector3.y (snd acc) = 0 ->
  Vector3.y (fst (addScaled held s acc)) = 0 /\
  Vector3.y (snd (addScaled held s acc)) = 0.
Proof.
  destruct acc as [axis target]. simpl. intros Ha Ht.
  destruct held; simpl; rewrite ?Ha, ?Ht; split; ring.
Qed.

Lemma subScaled_y (held : bool) (s : R) (acc : Vector3.t * Vector3.t) :
  Vector3.y (fst acc) = 0 -> Vector3.y (snd acc) = 0 ->
  Vector3.y (fst (subScaled held s acc)) = 0 /\
  Vector3.y (snd (subScaled held s acc)) = 0.
Proof.
  destruct acc as [axis target]. simpl. intros Ha Ht.
  destruct held; simpl; rewrite ?Ha, ?Ht; split; ring.
Qed.

Lemma computeTargetVelocity_y (env : Env) (keys : gset string)
    (q : Quaternion.t) :
  Vector3.y (computeTargetVelocity env keys q) = 0.
Proof.
  unfold computeTargetVelocity. destruct (isInteracting env); [reflexivity|].
  cbv zeta.
  set (forward :=
         Vector3.normalize
           (Vector3.setY (applyQuaternion (Vector3.mk 0 0 (-1)) q) 0)).
  set (right :=
         Vector3.normalize
           (Vector3.setY (applyQuaternion (Vector3.mk (-1) 0 0) q) 0)).
  assert (Hf : Vector3.y forward = 0) by (apply normalize_y; reflexivity).
  assert (Hr : Vector3.y right = 0) by (apply normalize_y; reflexivity).
  destruct (addScaled_y (has keys "KeyW") (moveSpeed env)
              (forward, Vector3.zero) Hf eq_refl) as [F1 T1].
  destruct (subScaled_y (has keys "KeyS") (moveSpeed env) _ F1 T1)
    as [F2 T2].
  destruct (addScaled_y (has keys "KeyA") (moveSpeed env)
              (right, snd (subScaled (has keys "KeyS") (moveSpeed env)
                             (addScaled (has keys "KeyW") (moveSpeed env)
                                (forward, Vector3.zero)))) Hr T2)
    as [F3 T3].
  destruct (subScaled_y (has keys "KeyD") (moveSpeed env) _ F3 T3)
    as [F4 T4].
  destruct (gtb _ _); [|exact T4].
  unfold Vector3.multiplyScalar. cbn [Vector3.y].
  rewrite (normalize_y _ T4). ring.
Qed.

Lemma integrate_y (env : Env) (dt : R) (t v : Vector3.t) :
  Vector3.y v = 0 -> Vector3.y t = 0 ->
  Vector3.y (integrate env dt t v) = 0.
Proof.
  intros Hv Ht. unfold integrate.
  destruct (gtb _ _); simpl; rewrite ?Hv, ?Ht; ring.
Qed.

Lemma resolveVelocity_y (env : Env) (v n : Vector3.t) :
  Vector3.y v = 0 -> Vector3.y n = 0 ->
  Vector3.y (resolveVelocity env v n) = 0.
Proof.
  intros Hv Hn. unfold resolveVelocity. destruct (ltb _ _); [|exact Hv].
  unfold Vector3.projectOnPlane, Vector3.projectOnVector.
  destruct (Req_EM_T _ _); simpl; rewrite ?Hv, ?Hn; ring.
Qed.

(** A horizontal ray meets the scene at the height it starts from, so the
    push away from the intersection point is horizontal. *)
Lemma castRay_y (cast : SceneQuery) (env : Env) (p d : Vector3.t)
    (ws : list Mesh) (acc : bool * Vector3.t) :
  pointsOnRay cast ->
  Vector3.y d = 0 -> Vector3.y (snd acc) = 0 ->
  Vector3.y (snd (castRay cast env p ws acc d)) = 0.
Proof.
  intros Hp Hd Ha. unfold castRay.
  destruct (cast p d ws) as [|h rest] eqn:E; [exact Ha|].
  destruct (ltb _ _); [|exact Ha]. cbn [snd].
  destruct (face h); [|exact Ha].
  assert (P : point h =
              Vector3.add p (Vector3.multiplyScalar d (distance h))).
  { apply (Hp p d ws). rewrite E. left. reflexivity. }
  simpl. rewrite Ha, P. simpl. rewrite Hd. ring.
Qed.

Lemma fold_castRay_y (cast : SceneQuery) (env : Env) (p : Vector3.t)
    (ws : list Mesh) (ds : list Vector3.t) (acc : bool * Vector3.t) :
  pointsOnRay cast ->
  Forall (fun d => Vector3.y d = 0) ds -> Vector3.y (snd acc) = 0 ->
  Vector3.y (snd (fold_left (castRay cast env p ws) ds acc)) = 0.
Proof.
  intros Hp Hds. revert acc. induction Hds as [|d ds Hd _ IH]; intros acc Ha.
  - exact Ha.
  - cbn [fold_left]. apply IH, castRay_y; assumption.
Qed.

Lemma probe_y (cast : SceneQuery) (env : Env) (p : Vector3.t)
    (ws : list Mesh) :
  pointsOnRay cast -> Vector3.y (snd (probe cast env p ws)) = 0.
Proof.
  intros Hp. unfold probe.
  apply fold_castRay_y; [exact Hp | exact rays_horizontal | reflexivity].
Qed.

Lemma pushDirections_y (cast : SceneQuery) (env : Env) (p : Vector3.t)
    (ws : list Mesh) (ds : list Vector3.t) :
  pointsOnRay cast ->
  Forall (fun d => Vector3.y d = 0) ds ->
  Forall (fun v => Vector3.y v = 0) (pushDirections cast env p ws ds).
Proof.
  intros Hp Hds. induction Hds as [|d ds Hd _ IH]; [constructor|].
  rewrite pushDirections_cons. apply Forall_app. split; [|exact IH].
  unfold pushDirections. cbn [flat_map]. rewrite app_nil_r.
  destruct (cast p d ws) as [|h rest] eqn:E; [constructor|].
  destruct (ltb _ _); constructor; [|constructor].
  assert (P : point h =
              Vector3.add p (Vector3.multiplyScalar d (distance h))).
  { apply (Hp p d ws). rewrite E. left. reflexivity. }
  apply normalize_y. rewrite P. simpl. rewrite Hd. ring.
Qed.

Lemma animate_horizontal (cast : SceneQuery) (env : Env) (now : R)
    (st : State) :
  pointsOnRay cast -> horizontal st ->
  horizontal (animate cast env now st) /\
  Vector3.y (cameraPosition (animate cast env now st))
    = Vector3.y (cameraPosition st).
Proof.
  intros Hp [Hv Ht].
  assert (Hi : Vector3.y (integrated env now st) = 0)
    by (apply integrate_y; assumption).
  destruct (moves env now st) eqn:M.
  - destruct (fst (probe cast env (proposed env now st) (wallColliders st)))
      eqn:P.
    + rewrite animate_blocked by assumption. cbv zeta.
      split; [split|]; simpl; try assumption; try reflexivity.
      apply resolveVelocity_y; [exact Hi|].
      apply normalize_y, probe_y, Hp.
    + rewrite animate_free by assumption.
      split; [split|]; simpl; try assumption.
      rewrite Hi. ring.
  - rewrite animate_still by assumption.
    split; [split|]; simpl; try assumption; reflexivity.
Qed.

Lemma step_horizontal (cast : SceneQuery) (st : State) (ev : Event) :
  pointsOnRay cast -> horizontal st ->
  horizontal (step cast st ev) /\
  Vector3.y (cameraPosition (step cast st ev))
    = Vector3.y (cameraPosition st).
Proof.
  intros Hp H. pose proof H as [Hv Ht].
  destruct ev as [c|c|now|i now|env now|q]; simpl.
  - unfold handleKeyDown. destruct (isInteracting (closure st)).
    + split; [exact H | reflexivity].
    + split; [split|]; simpl; try assumption; try reflexivity.
      apply computeTargetVelocity_y.
  - split; [split|]; simpl; try assumption; try reflexivity.
    apply computeTargetVelocity_y.
  - apply animate_horizontal; assumption.
  - destruct (staleLoops st !! i) as [env|].
    + apply animate_horizontal; assumption.
    + split; [exact H | reflexivity].
  - rewrite rerender_animate.
    apply (animate_horizontal cast env now
             (setClosure env (staleLoops st ++ [closure st])
                (setWallColliders
                   (map (fun ps => mkMesh (fst ps) (snd ps)) wallSpecs) st)));
      [exact Hp | exact H].
  - split; [exact H | reflexivity].
Qed.

Lemma run_horizontal (cast : SceneQuery) (evs : list Event) (st : State) :
  pointsOnRay cast -> horizontal st ->
  horizontal (run cast st evs) /\
  Vector3.y (cameraPosition (run cast st evs))
    = Vector3.y (cameraPosition st).
Proof.
  intros Hp. revert st. induction evs as [|ev evs IH]; intros st H.
  - split; [exact H | reflexivity].
  - destruct (step_horizontal cast st ev Hp H) as [H1 E1].
    destruct (IH (step cast st ev) H1) as [H2 E2].
    simpl. split; [exact H2|]. rewrite <- E1. exact E2.
Qed.

Lemma mount_horizontal (cast : SceneQuery) (env : Env) (t0 now : R)
    (p : Vector3.t) (q : Quaternion.t) :
  pointsOnRay cast ->
  horizontal (mount cast env t0 now p q) /\
  Vector3.y (cameraPosition (mount cast env t0 now p q)) = Vector3.y p.
Proof.
  intros Hp. unfold mount, effect. rewrite createWalls_frame.
  apply (animate_horizontal cast env now
           (setClosure env []
              (setWallColliders
                 (map (fun ps => mkMesh (fst ps) (snd ps)) wallSpecs)
                 (initial env t0 p q))));
    [exact Hp | split; reflexivity].
Qed.

(** C10: the target velocity has no vertical component; the eight rays are
    horizontal, so (the scene query returning points on the ray it was
    given) every push direction, their accumulated sum and the aggregate
    normal are horizontal; hence, from a state whose velocities are
    horizontal, every frame, and every sequence of events, keeps the
    velocities horizontal and the camera at the height it had; in
    particular a component mounted at position [p] keeps the camera at the
    height of [p] through every sequence of events. *)
Theorem height_preserved (cast : SceneQuery) (env : Env) (st : State)
    (now : R) (keys : gset string) (q : Quaternion.t) (p : Vector3.t)
    (evs : list Event) :
  pointsOnRay cast ->
  Vector3.y (computeTargetVelocity env keys q) = 0 /\
  Forall (fun d => Vector3.y d = 0) rays /\
  Forall (fun v => Vector3.y v = 0)
    (pushDirections cast env p (wallColliders st) rays) /\
  Vector3.y (snd (probe cast env p (wallColliders st))) = 0 /\
  Vector3.y
    (Vector3.normalize (snd (probe cast env p (wallColliders st)))) = 0 /\
  (horizontal st ->
   horizontal (animate cast env now st) /\
   Vector3.y (cameraPosition (animate cast env now st))
     = Vector3.y (cameraPosition st)) /\
  (horizontal st ->
   horizontal (run cast st evs) /\
   Vector3.y (cameraPosition (run cast st evs))
     = Vector3.y (cameraPosition st)) /\
  (forall t0,
     Vector3.y (cameraPosition (run cast (mount cast env t0 now p q) evs))
     = Vector3.y p).
Proof.
  intros Hp.
  split; [apply computeTargetVelocity_y|].
  split; [exact rays_horizontal|].
  split; [apply pushDirections_y; [exact Hp | exact rays_horizontal]|].
  split; [apply probe_y, Hp|].
  split; [apply normalize_y, probe_y, Hp|].
  split; [apply animate_horizontal, Hp|].
  split; [apply run_horizontal, Hp|].
  intros t0. destruct (mount_horizontal cast env t0 now p q Hp) as [H E].
  destruct (run_horizontal cast evs _ Hp H) as [_ E'].
  rewrite E'. exact E.
Qed.

(** * Further properties of Controls *)

(** ** Positions the camera is moved to *)

(** The collision flag of the loop needs no assumption on the faces. *)
Lemma fold_castRay_fst (cast : SceneQuery) (env : Env) (p : Vector3.t)
    (ws : list Mesh) (ds : list Vector3.t) (acc : bool * Vector3.t) :
  fst (fold_left (castRay cast env p ws) ds acc) =
  fst acc || existsb (collides cast env p ws) ds.
Proof.
  revert acc. induction ds as [|d ds IH]; intros acc.
  - simpl. rewrite orb_false_r. reflexivity.
  - cbn [fold_left existsb]. rewrite IH, orb_assoc. f_equal.
    unfold castRay, collides. destruct (cast p d ws) as [|h rest].
    + rewrite orb_false_r. reflexivity.
    + destruct (ltb _ _).
      * rewrite orb_true_r. reflexivity.
      * rewrite orb_false_r. reflexivity.
Qed.

Lemma probe_clear (cast : SceneQuery) (env : Env) (p : Vector3.t)
    (ws : list Mesh) :
  fst (probe cast env p ws) = false ->
  forall d nearest others,
    In d rays -> cast p d ws = nearest :: others ->
    collisionDistance env <= distance nearest.
Proof.
  unfold probe. rewrite fold_castRay_fst. cbn [fst orb].
  intros H d h rest Hd E.
  destruct (Rle_dec (collisionDistance env) (distance h)) as [|N];
    [assumption|].
  exfalso. apply Rnot_le_lt in N.
  assert (X : existsb (collides cast env p ws) rays = true).
  { apply existsb_exists. exists d. split; [exact Hd|].
    unfold collides. rewrite E. apply ltb_true, N. }
  rewrite X in H. discriminate.
Qed.

(** Whenever a frame changes the camera position, the new position is the
    proposed one and its probe was clear: along each of the eight rays from
    it, every intersection the scene query reports (closest first) is at
    least [collisionDistance] away. *)
Theorem camera_moves_only_to_clear_positions (cast : SceneQuery) (env : Env)
    (now : R) (st : State) :
  closestFirst cast ->
  cameraPosition (animate cast env now st) <> cameraPosition st ->
  cameraPosition (animate cast env now st) = proposed env now st /\
  forall d h,
    In d rays ->
    In h (cast (cameraPosition (animate cast env now st)) d
            (wallColliders st)) ->
    collisionDistance env <= distance h.
Proof.
  intros Hc Hm.
  destruct (moves env now st) eqn:M.
  - destruct (fst (probe cast env (proposed env now st) (wallColliders st)))
      eqn:P.
    + exfalso. apply Hm. rewrite animate_blocked by assumption. reflexivity.
    + rewrite animate_free by assumption. cbn [cameraPosition
        setCameraPosition]. split; [reflexivity|].
      intros d h Hd Hin.
      destruct (cast (proposed env now st) d (wallColliders st))
        as [|h0 rest] eqn:E; [destruct Hin|].
      pose proof (probe_clear cast env _ _ P d h0 rest Hd E) as H0.
      destruct Hin as [<-|Hin]; [exact H0|].
      pose proof (Hc _ _ _ _ _ E h Hin). lra.
  - exfalso. apply Hm. rewrite animate_still by assumption. reflexivity.
Qed.

Lemma sub_add_cancel (p v : Vector3.t) :
  Vector3.sub (Vector3.add p v) p = v.
Proof. apply vec_eq; simpl; ring. Qed.

Lemma sub_self (p : Vector3.t) : Vector3.sub p p = Vector3.zero.
Proof. apply vec_eq; simpl; ring. Qed.

Lemma frameDelta_le (now : R) (st : State) : frameDelta now st <= 1 / 10.
Proof. unfold frameDelta. apply Rmin_r. Qed.

(** However long the gap since the last frame, a frame with a non-negative
    time delta moves the camera by at most [moveSpeed / 10] (the speed limit
    times the 0.1 s cap on the delta), provided both velocities are within
    the speed limit. *)
Theorem frame_displacement_bounded (cast : SceneQuery) (env : Env)
    (now : R) (st : State) :
  damping env -> lastTime st <= now -> speedBounded env st ->
  Vector3.length
    (Vector3.sub (cameraPosition (animate cast env now st))
       (cameraPosition st))
  <= moveSpeed env * (1 / 10).
Proof.
  intros Hd Ht Hb. pose proof Hd as (Hs & _). destruct Hb as [Hv Htv].
  assert (Z0 : Vector3.length Vector3.zero <= moveSpeed env * (1 / 10))
    by (rewrite length_zero; lra).
  destruct (moves env now st) eqn:M.
  - destruct (fst (probe cast env (proposed env now st) (wallColliders st)))
      eqn:P.
    + rewrite animate_blocked by assumption. cbv zeta.
      cbn [cameraPosition setCollisionNormal setVelocity setLastTime].
      rewrite sub_self. exact Z0.
    + rewrite animate_free by assumption.
      cbn [cameraPosition setCameraPosition]. unfold proposed.
      rewrite sub_add_cancel.
      assert (Hi : Vector3.length (integrated env now st) <= moveSpeed env).
      { apply integrate_bounded; try assumption.
        apply frameDelta_nonneg, Ht. }
      apply length_le_iff in Hi; [|exact Hs].
      apply length_le_iff; [lra|].
      rewrite lengthSq_multiplyScalar.
      pose proof (frameDelta_nonneg now st Ht) as D0.
      pose proof (frameDelta_le now st) as D1.
      pose proof (lengthSq_nonneg (integrated env now st)) as Q0.
      set (dt := frameDelta now st) in *.
      set (Q := Vector3.lengthSq (integrated env now st)) in *.
      assert (D2 : dt * dt <= 1 / 10 * (1 / 10)) by nra.
      assert (H1 : 0 <= (1 / 10 * (1 / 10) - dt * dt) * Q)
        by (apply Rmult_le_pos; lra).
      assert (H2 : 0 <= 1 / 10 * (1 / 10)
                        * (moveSpeed env * moveSpeed env - Q))
        by (apply Rmult_le_pos; lra).
      lra.
  - rewrite animate_still by assumption.
    cbn [cameraPosition setVelocity setLastTime].
    rewrite sub_self. exact Z0.
Qed.

(** ** Colliders and loops across effect runs *)

Lemma rerender_wallColliders (cast : SceneQuery) (env : Env) (now : R)
    (st : State) :
  wallColliders (rerender cast env now st) = builtWalls.
Proof.
  rewrite rerender_animate.
  destruct (animate_frame cast env now
              (setClosure env (staleLoops st ++ [closure st])
                 (setWallColliders
                    (map (fun ps => mkMesh (fst ps) (snd ps)) wallSpecs)
                    st))) as (_ & _ & _ & F & _).
  rewrite F. reflexivity.
Qed.

Lemma step_wallColliders (cast : SceneQuery) (st : State) (ev : Event) :
  wallColliders (step cast st ev) =
  match ev with Rerender _ _ => builtWalls | _ => wallColliders st end.
Proof.
  destruct ev as [c|c|now|i now|env now|q]; simpl.
  - unfold handleKeyDown. destruct (isInteracting (closure st)); reflexivity.
  - reflexivity.
  - apply (animate_frame cast (closure st) now st).
  - destruct (staleLoops st !! i) as [env|]; [|reflexivity].
    apply (animate_frame cast env now st).
  - apply rerender_wallColliders.
  - reflexivity.
Qed.

Lemma mount_wallColliders (cast : SceneQuery) (env : Env) (t0 now : R)
    (p : Vector3.t) (q : Quaternion.t) :
  wallColliders (mount cast env t0 now p q) = builtWalls.
Proof.
  unfold mount, effect. rewrite createWalls_frame.
  destruct (animate_frame cast env now
              (setClosure env
                 (staleLoops
                    (setWallColliders
                       (wallColliders (initial env t0 p q) ++
                        map (fun ps => mkMesh (fst ps) (snd ps)) wallSpecs)
                       (initial env t0 p q)))
                 (setWallColliders
                    (wallColliders (initial env t0 p q) ++
                     map (fun ps => mkMesh (fst ps) (snd ps)) wallSpecs)
                    (initial env t0 p q)))) as (_ & _ & _ & F & _).
  rewrite F. reflexivity.
Qed.

(** Re-running the effect never piles up colliders: whatever the array
    held, after a re-run it holds the thirteen walls of the effect, and a
    mounted component keeps exactly these through every sequence of key
    events, frames, camera turns and re-runs. *)
Theorem colliders_rebuilt_not_accumulated (cast : SceneQuery) (env : Env)
    (t0 now : R) (p : Vector3.t) (q : Quaternion.t) (st : State)
    (evs : list Event) :
  wallColliders (rerender cast env now st) = builtWalls /\
  wallColliders (run cast (mount cast env t0 now p q) evs) = builtWalls /\
  length (wallColliders (run cast (mount cast env t0 now p q) evs))
    = 13%nat.
Proof.
  split; [apply rerender_wallColliders|].
  assert (H : forall s, wallColliders s = builtWalls ->
                        wallColliders (run cast s evs) = builtWalls).
  { induction evs as [|ev evs' IH]; intros s Hs; [exact Hs|].
    simpl. apply IH. rewrite step_wallColliders. destruct ev; auto. }
  assert (E : wallColliders (run cast (mount cast env t0 now p q) evs)
              = builtWalls) by (apply H, mount_wallColliders).
  split; [exact E|]. rewrite E. reflexivity.
Qed.

Lemma step_staleLoops (cast : SceneQuery) (st : State) (ev : Event) :
  staleLoops (step cast st ev) =
  match ev with
  | Rerender _ _ => staleLoops st ++ [closure st]
  | _ => staleLoops st
  end.
Proof.
  destruct ev as [c|c|now|i now|env now|q]; simpl.
  - unfold handleKeyDown. destruct (isInteracting (closure st)); reflexivity.
  - reflexivity.
  - apply (animate_frame cast (closure st) now st).
  - destruct (staleLoops st !! i) as [env|]; [|reflexivity].
    apply (animate_frame cast env now st).
  - apply (rerender_frame cast env now st).
  - reflexivity.
Qed.

(** No animation loop is ever stopped: the loops of replaced closures only
    grow, by one for each re-run of the effect, and the loops that were
    running stay, in place, with the settings they closed over. *)
Theorem animation_loops_never_stopped (cast : SceneQuery) (st : State)
    (evs : list Event) :
  length (staleLoops (run cast st evs))
    = (length (staleLoops st) + rerenders evs)%nat /\
  exists later, staleLoops (run cast st evs) = staleLoops st ++ later.
Proof.
  revert st. induction evs as [|ev evs IH]; intros st.
  - simpl. split; [lia|]. exists []. rewrite app_nil_r. reflexivity.
  - cbn [run fold_left]. fold (run cast (step cast st ev) evs).
    destruct (IH (step cast st ev)) as [L [later E]].
    rewrite L, E, step_staleLoops. destruct ev; cbn [rerenders fold_right];
      fold (rerenders evs);
      try (split; [lia | exists later; reflexivity]).
    split; [rewrite length_app; simpl; lia|].
    exists (closure st :: later). rewrite <- app_assoc. reflexivity.
Qed.

(** After a re-run of the effect the loop of the replaced closure still
    runs: its next frame is a full [animate] with the old settings, so with
    the old closure not interacting it moves the camera to any clear
    proposed position, whether or not the new closure is interacting. *)
Theorem replaced_loop_still_moves_camera (cast : SceneQuery) (st : State)
    (env : Env) (now later : R) :
  let st1 := rerender cast env now st in
  let st2 := step cast st1 (StaleFrame (length (staleLoops st)) later) in
  st2 = animate cast (closure st) later st1 /\
  (moves (closure st) later st1 = true ->
   fst (probe cast (closure st) (proposed (closure st) later st1)
          (wallColliders st1)) = false ->
   cameraPosition st2 = proposed (closure st) later st1).
Proof.
  intros st1 st2.
  assert (E : st2 = animate cast (closure st) later st1).
  { unfold st2. cbn [step].
    destruct (rerender_frame cast env now st) as (_ & _ & _ & _ & F).
    fold st1 in F. rewrite F.
    rewrite lookup_app_r by lia. rewrite Nat.sub_diag. reflexivity. }
  split; [exact E|].
  intros M P. rewrite E, animate_free by assumption. reflexivity.
Qed.

(** ** Keys *)

Lemma step_activeKeys (cast : SceneQuery) (st : State) (ev : Event) :
  activeKeys (step cast st ev) =
  match ev with
  | KeyDown code =>
      if isInteracting (closure st) then activeKeys st
      else {[code]} ∪ activeKeys st
  | KeyUp code => activeKeys st ∖ {[code]}
  | _ => activeKeys st
  end.
Proof.
  destruct ev as [c|c|now|i now|env now|q]; simpl.
  - unfold handleKeyDown. destruct (isInteracting (closure st)); reflexivity.
  - reflexivity.
  - apply (animate_frame cast (closure st) now st).
  - destruct (staleLoops st !! i) as [env|]; [|reflexivity].
    apply (animate_frame cast env now st).
  - apply (rerender_frame cast env now st).
  - reflexivity.
Qed.

(** The arrows on screen show the keys that drive the movement: if [App]'s
    key set and [isInteracting] agree with those of [Controls] at some
    point, they agree after every sequence of key events, frames, camera
    turns and effect re-runs. *)
Theorem hud_keys_follow_controls (cast : SceneQuery) (evs : list Event)
    (st : State) (app : App.State) :
  App.activeKeys app = activeKeys st ->
  App.isInteracting app = isInteracting (closure st) ->
  App.activeKeys (appRun app evs) = activeKeys (run cast st evs) /\
  App.isInteracting (appRun app evs)
    = isInteracting (closure (run cast st evs)).
Proof.
  revert st app. induction evs as [|ev evs IH]; intros st app Hk Hi.
  - split; assumption.
  - cbn [appRun run fold_left]. apply IH.
    + rewrite step_activeKeys.
      destruct ev as [c|c|now|i now|env now|q]; cbn [appStep];
        try exact Hk.
      * unfold App.handleKeyDown. rewrite Hi.
        destruct (isInteracting (closure st)); simpl; rewrite ?Hk;
          reflexivity.
      * simpl. rewrite Hk. reflexivity.
    + rewrite step_closure.
      destruct ev as [c|c|now|i now|env now|q]; cbn [appStep];
        try exact Hi; try reflexivity.
      unfold App.handleKeyDown. destruct (App.isInteracting app) eqn:E;
        [rewrite E|]; exact Hi.
Qed.

Lemma has_ext (ks1 ks2 : gset string) (code : string) :
  (code ∈ ks1 <-> code ∈ ks2) -> has ks1 code = has ks2 code.
Proof. intros H. unfold has. apply bool_decide_ext, H. Qed.

(** Only the four movement codes count: two key sets that agree on KeyW,
    KeyS, KeyA and KeyD give the same target velocity, so any other key held
    (it is recorded in the set all the same) changes nothing. *)
Theorem other_keys_do_not_steer (env : Env) (ks1 ks2 : gset string)
    (q : Quaternion.t) :
  (forall code,
     In code ["KeyW"; "KeyS"; "KeyA"; "KeyD"] ->
     (code ∈ ks1 <-> code ∈ ks2)) ->
  computeTargetVelocity env ks1 q = computeTargetVelocity env ks2 q.
Proof.
  intros H. unfold computeTargetVelocity.
  rewrite (has_ext ks1 ks2 "KeyW") by (apply H; simpl; tauto).
  rewrite (has_ext ks1 ks2 "KeyS") by (apply H; simpl; tauto).
  rewrite (has_ext ks1 ks2 "KeyA") by (apply H; simpl; tauto).
  rewrite (has_ext ks1 ks2 "KeyD") by (apply H; simpl; tauto).
  reflexivity.
Qed.

Lemma press_twice (ks : gset string) (code : string) :
  {[code]} ∪ ({[code]} ∪ ks) = {[code]} ∪ ks.
Proof. rewrite (assoc_L (∪)), (idemp_L (∪)). reflexivity. Qed.

Lemma release_twice (ks : gset string) (code : string) :
  ks ∖ {[code]} ∖ {[code]} = ks ∖ {[code]}.
Proof.
  apply set_eq. intros c. rewrite !elem_of_difference. tauto.
Qed.

Lemma press_release (ks : gset string) (code : string) :
  code ∉ ks -> ({[code]} ∪ ks) ∖ {[code]} = ks.
Proof.
  intros H. apply set_eq. intros c.
  rewrite elem_of_difference, elem_of_union, elem_of_singleton.
  split.
  - intros [[E|Hc] N]; [contradiction | exact Hc].
  - intros Hc. split; [right; exact Hc|]. intros ->. exact (H Hc).
Qed.

(** Key auto-repeat is harmless and a tap leaves no trace: handling the same
    key-down (or the same key-up) twice gives the state of handling it once,
    and pressing then releasing a key that was not held gives back the held
    set there was. *)
Theorem key_repeat_and_tap (env : Env) (code : string) (st : State) :
  handleKeyDown env code (handleKeyDown env code st)
    = handleKeyDown env code st /\
  handleKeyUp env code (handleKeyUp env code st) = handleKeyUp env code st /\
  (code ∉ activeKeys st ->
   activeKeys (handleKeyUp env code (handleKeyDown env code st))
     = activeKeys st).
Proof.
  split; [|split].
  - unfold handleKeyDown. destruct (isInteracting env) eqn:E;
      [reflexivity|].
    unfold updateTargetVelocity, setTargetVelocity, setActiveKeys. simpl.
    rewrite press_twice. reflexivity.
  - unfold handleKeyUp, updateTargetVelocity, setTargetVelocity,
      setActiveKeys. simpl. rewrite release_twice. reflexivity.
  - intros H. unfold handleKeyUp, handleKeyDown.
    destruct (isInteracting env); simpl.
    + apply set_eq. intros c.
      rewrite elem_of_difference, elem_of_singleton. split; [tauto|].
      intros Hc. split; [exact Hc|]. intros ->. exact (H Hc).
    + apply press_release, H.
Qed.

(** ** One key at a time *)

Lemma axis_lengthSq_le_1 (v : Vector3.t) :
  Vector3.lengthSq (Vector3.normalize v) <= 1.
Proof.
  destruct (normalize_cases v) as [E|E].
  - rewrite E. unfold Vector3.lengthSq. simpl. lra.
  - lra.
Qed.

Lemma clamp_skipped (f : Vector3.t) (s k : R) :
  Vector3.lengthSq f <= 1 -> k * k = s * s ->
  gtb (Vector3.lengthSq (Vector3.multiplyScalar f k)) (s * s) = false.
Proof.
  intros Hf Hk. apply gtb_false. rewrite lengthSq_multiplyScalar, Hk.
  pose proof (lengthSq_nonneg f) as H0.
  assert (H1 : 0 <= s * s) by nra.
  assert (H2 : 0 <= s * s * (1 - Vector3.lengthSq f))
    by (apply Rmult_le_pos; lra).
  lra.
Qed.

Lemma only_held (a c : string) : c <> a -> c ∉ ({[a]} : gset string).
Proof. rewrite elem_of_singleton. auto. Qed.

Lemma held_alone (a : string) : a ∈ ({[a]} : gset string).
Proof. apply elem_of_singleton. reflexivity. Qed.

(** With one movement key held (and the component not interacting) the
    target velocity is [moveSpeed] times the camera's horizontal forward
    direction for KeyW, its exact opposite for KeyS, [moveSpeed] times the
    right direction for KeyA and its exact opposite for KeyD; the clamp
    never applies. *)
Theorem single_key_targets (env : Env) (q : Quaternion.t) :
  isInteracting env = false ->
  computeTargetVelocity env {["KeyW"]} q
    = Vector3.multiplyScalar (forwardOf q) (moveSpeed env) /\
  computeTargetVelocity env {["KeyS"]} q
    = Vector3.multiplyScalar (forwardOf q) (- moveSpeed env) /\
  computeTargetVelocity env {["KeyA"]} q
    = Vector3.multiplyScalar (rightOf q) (moveSpeed env) /\
  computeTargetVelocity env {["KeyD"]} q
    = Vector3.multiplyScalar (rightOf q) (- moveSpeed env).
Proof.
  intros Hi. unfold computeTargetVelocity. rewrite Hi. cbv zeta.
  fold (forwardOf q). fold (rightOf q).
  pose proof (axis_lengthSq_le_1
                (Vector3.setY (applyQuaternion (Vector3.mk 0 0 (-1)) q) 0))
    as Hf. fold (forwardOf q) in Hf.
  pose proof (axis_lengthSq_le_1
                (Vector3.setY (applyQuaternion (Vector3.mk (-1) 0 0) q) 0))
    as Hr. fold (rightOf q) in Hr.
  repeat split.
  - rewrite (has_true _ "KeyW") by apply held_alone.
    rewrite !has_false by (apply only_held; discriminate).
    cbn [addScaled subScaled fst snd].
    replace (Vector3.add Vector3.zero
               (Vector3.multiplyScalar (forwardOf q) (moveSpeed env)))
      with (Vector3.multiplyScalar (forwardOf q) (moveSpeed env))
      by (apply vec_eq; simpl; ring).
    rewrite clamp_skipped by (assumption || reflexivity). reflexivity.
  - rewrite (has_true _ "KeyS") by apply held_alone.
    rewrite !has_false by (apply only_held; discriminate).
    cbn [addScaled subScaled fst snd].
    replace (Vector3.sub Vector3.zero
               (Vector3.multiplyScalar (forwardOf q) (moveSpeed env)))
      with (Vector3.multiplyScalar (forwardOf q) (- moveSpeed env))
      by (apply vec_eq; simpl; ring).
    rewrite clamp_skipped by (assumption || ring). reflexivity.
  - rewrite (has_true _ "KeyA") by apply held_alone.
    rewrite !has_false by (apply only_held; discriminate).
    cbn [addScaled subScaled fst snd].
    replace (Vector3.add Vector3.zero
               (Vector3.multiplyScalar (rightOf q) (moveSpeed env)))
      with (Vector3.multiplyScalar (rightOf q) (moveSpeed env))
      by (apply vec_eq; simpl; ring).
    rewrite clamp_skipped by (assumption || reflexivity). reflexivity.
  - rewrite (has_true _ "KeyD") by apply held_alone.
    rewrite !has_false by (apply only_held; discriminate).
    cbn [addScaled subScaled fst snd].
    replace (Vector3.sub Vector3.zero
               (Vector3.multiplyScalar (rightOf q) (moveSpeed env)))
      with (Vector3.multiplyScalar (rightOf q) (- moveSpeed env))
      by (apply vec_eq; simpl; ring).
    rewrite clamp_skipped by (assumption || ring). reflexivity.
Qed.

(** ** Coasting to rest *)

Lemma resolveVelocity_normalize_shorter (env : Env) (v n : Vector3.t) :
  0 <= wallSlideForce env <= 1 ->
  Vector3.lengthSq (resolveVelocity env v (Vector3.normalize n))
    <= Vector3.lengthSq v.
Proof.
  intros Hw. destruct (normalize_cases n) as [E|E].
  - rewrite E, resolveVelocity_zero_normal. lra.
  - apply resolveVelocity_shorter; assumption.
Qed.

(** With a zero target a frame scales the velocity by the decay factor, and
    a collision can only shorten it further. *)
Lemma animate_decay (cast : SceneQuery) (env : Env) (now : R) (st : State) :
  0 <= wallSlideForce env <= 1 ->
  targetVelocity st = Vector3.zero ->
  let e := exp (- deceleration env * frameDelta now st) in
  Vector3.lengthSq (velocity (animate cast env now st))
    <= e * e * Vector3.lengthSq (velocity st).
Proof.
  intros Hw Ht e.
  assert (I : Vector3.lengthSq (integrated env now st)
              = e * e * Vector3.lengthSq (velocity st)).
  { unfold integrated. rewrite Ht, integrate_zero_target.
    apply lengthSq_multiplyScalar. }
  destruct (moves env now st) eqn:M.
  - destruct (fst (probe cast env (proposed env now st) (wallColliders st)))
      eqn:P.
    + rewrite animate_blocked by assumption. cbv zeta.
      cbn [velocity setCollisionNormal setVelocity]. rewrite <- I.
      apply resolveVelocity_normalize_shorter, Hw.
    + rewrite animate_free by assumption.
      cbn [velocity setCameraPosition setCollisionNormal setVelocity]. lra.
  - rewrite animate_still by assumption. cbn [velocity setVelocity]. lra.
Qed.

(** Below the threshold of [animate] nothing is committed. *)
Lemma animate_slow_keeps_position (cast : SceneQuery) (env : Env) (now : R)
    (st : State) :
  Vector3.lengthSq (integrated env now st) <= 1 / 10000 ->
  cameraPosition (animate cast env now st) = cameraPosition st.
Proof.
  intros H. rewrite animate_still; [reflexivity|].
  unfold moves. rewrite gtb_false by exact H. reflexivity.
Qed.

Lemma frames_S (cast : SceneQuery) (env : Env) (delta : R) (n : nat)
    (st : State) :
  frames cast env delta (S n) st =
  animate cast env (lastTime (frames cast env delta n st) + delta)
    (frames cast env delta n st).
Proof. reflexivity. Qed.

Lemma frames_targetVelocity (cast : SceneQuery) (env : Env) (delta : R)
    (n : nat) (st : State) :
  targetVelocity (frames cast env delta n st) = targetVelocity st.
Proof.
  induction n as [|n IH]; [reflexivity|]. rewrite frames_S.
  destruct (animate_frame cast env
              (lastTime (frames cast env delta n st) + delta)
              (frames cast env delta n st)) as (_ & F & _).
  rewrite F. exact IH.
Qed.

Lemma frameDelta_regular (delta : R) (st : State) :
  frameDelta (lastTime st + delta) st = Rmin (delta / 1000) (1 / 10).
Proof. unfold frameDelta. f_equal. field. Qed.

Lemma frames_decay (cast : SceneQuery) (env : Env) (delta : R) (n : nat)
    (st : State) :
  0 <= wallSlideForce env <= 1 ->
  targetVelocity st = Vector3.zero ->
  let e := exp (- deceleration env * Rmin (delta / 1000) (1 / 10)) in
  Vector3.lengthSq (velocity (frames cast env delta n st))
    <= (e * e) ^ n * Vector3.lengthSq (velocity st).
Proof.
  intros Hw Ht e. induction n as [|n IH].
  - simpl. lra.
  - rewrite frames_S.
    pose proof (animate_decay cast env
                  (lastTime (frames cast env delta n st) + delta)
                  (frames cast env delta n st) Hw) as D.
    rewrite frames_targetVelocity in D. specialize (D Ht). cbv zeta in D.
    rewrite frameDelta_regular in D. fold e in D.
    assert (E0 : 0 <= e * e) by nra.
    cbn [pow]. 
    assert (H1 : e * e * Vector3.lengthSq
                           (velocity (frames cast env delta n st))
                 <= e * e * ((e * e) ^ n * Vector3.lengthSq (velocity st)))
      by (apply Rmult_le_compat_l; assumption).
    lra.
Qed.

(** Coasting comes to rest: with no target velocity, a positive
    deceleration and frames every [delta > 0] milliseconds, the squared
    speed never grows from one frame to the next, and from some frame on it
    is below the threshold 0.0001 of [animate] and the camera no longer
    moves. *)
Theorem coasting_comes_to_rest (cast : SceneQuery) (env : Env) (delta : R)
    (st : State) :
  0 < deceleration env ->
  0 <= wallSlideForce env <= 1 ->
  0 < delta ->
  targetVelocity st = Vector3.zero ->
  (forall n,
     Vector3.lengthSq (velocity (frames cast env delta (S n) st))
     <= Vector3.lengthSq (velocity (frames cast env delta n st))) /\
  exists N, forall n, (N <= n)%nat ->
    Vector3.lengthSq (velocity (frames cast env delta n st)) < 1 / 10000 /\
    cameraPosition (frames cast env delta (S n) st)
      = cameraPosition (frames cast env delta n st).
Proof.
  intros Hd Hw Hdelta Ht.
  set (d := Rmin (delta / 1000) (1 / 10)).
  assert (Hdpos : 0 < d) by (unfold d; apply Rmin_glb_lt; lra).
  set (e := exp (- deceleration env * d)).
  assert (He : 0 < e < 1).
  { split; [apply exp_pos|]. unfold e.
    assert (X : - deceleration env * d < 0) by nra.
    apply exp_increasing in X. rewrite exp_0 in X. exact X. }
  assert (Hee : 0 < e * e < 1) by nra.
  assert (Step : forall s, targetVelocity s = Vector3.zero ->
            Vector3.lengthSq (velocity (animate cast env (lastTime s + delta) s))
            <= e * e * Vector3.lengthSq (velocity s)).
  { intros s Hs. pose proof (animate_decay cast env (lastTime s + delta) s
                               Hw Hs) as D.
    cbv zeta in D. rewrite frameDelta_regular in D. exact D. }
  split.
  - intros n. rewrite frames_S.
    pose proof (Step (frames cast env delta n st)) as D.
    rewrite frames_targetVelocity in D. specialize (D Ht).
    pose proof (lengthSq_nonneg (velocity (frames cast env delta n st))) as Q.
    set (V := Vector3.lengthSq (velocity (frames cast env delta n st))) in *.
    assert (0 <= (1 - e * e) * V) by (apply Rmult_le_pos; lra). lra.
  - set (V0 := Vector3.lengthSq (velocity st)).
    assert (HV0 : 0 <= V0) by apply lengthSq_nonneg.
    destruct (pow_lt_1_zero (e * e)) with (y := 1 / 10000 / (V0 + 1))
      as [N HN].
    { rewrite Rabs_pos_eq; lra. }
    { apply Rdiv_lt_0_compat; lra. }
    exists N. intros n Hn.
    assert (Small : Vector3.lengthSq (velocity (frames cast env delta n st))
                    < 1 / 10000).
    { pose proof (frames_decay cast env delta n st Hw Ht) as D.
      cbv zeta in D. fold d in D. fold e in D. fold V0 in D.
      specialize (HN n Hn).
      assert (P0 : 0 <= (e * e) ^ n) by (apply pow_le; lra).
      rewrite Rabs_pos_eq in HN by exact P0.
      assert (X : (e * e) ^ n * (V0 + 1) < 1 / 10000).
      { apply Rmult_lt_compat_r with (r := V0 + 1) in HN; [|lra].
        unfold Rdiv in HN. rewrite Rmult_assoc, Rinv_l in HN by lra.
        lra. }
      nra. }
    split; [exact Small|].
    rewrite frames_S. apply animate_slow_keeps_position.
    unfold integrated. rewrite frames_targetVelocity, Ht.
    rewrite integrate_zero_target, lengthSq_multiplyScalar.
    rewrite frameDelta_regular. fold d. fold e.
    pose proof (lengthSq_nonneg (velocity (frames cast env delta n st))) as Q.
    set (V := Vector3.lengthSq (velocity (frames cast env delta n st))) in *.
    assert (0 <= (1 - e * e) * V) by (apply Rmult_le_pos; lra). lra.
Qed.

(** * Properties of Museum *)

(** ** The saved viewpoint *)

Lemma equals_true_iff (a b : Vector3.t) :
  Vector3.equals a b = true <-> a = b.
Proof.
  unfold Vector3.equals.
  destruct (Req_EM_T (Vector3.x b) (Vector3.x a)) as [Ex|Ex];
    destruct (Req_EM_T (Vector3.y b) (Vector3.y a)) as [Ey|Ey];
    destruct (Req_EM_T (Vector3.z b) (Vector3.z a)) as [Ez|Ez];
    simpl; split; intros H; try discriminate; try reflexivity;
    try (apply vec_eq; symmetry; assumption);
    subst a; contradiction.
Qed.

Lemma nonzero_lengthSq (v : Vector3.t) :
  v <> Vector3.zero <-> 0 < Vector3.lengthSq v.
Proof.
  pose proof (lengthSq_nonneg v) as H0. split.
  - intros H. destruct (Req_EM_T (Vector3.lengthSq v) 0) as [E|E]; [|lra].
    apply lengthSq_zero_iff in E. contradiction.
  - intros H E. subst v. unfold Vector3.lengthSq in H. simpl in H. lra.
Qed.

Lemma initCamera_lastPosition (st : Museum.State) :
  Museum.lastPosition (Museum.initCamera st) <> Vector3.zero.
Proof.
  unfold Museum.initCamera.
  destruct (Req_EM_T (Vector3.lengthSq (Museum.lastPosition st)) 0)
    as [E|E].
  - simpl. intros H. apply (f_equal Vector3.y) in H. simpl in H. lra.
  - intros H. apply E. rewrite H. unfold Vector3.lengthSq. simpl. lra.
Qed.

Lemma orbitEffect_off_lastPosition (st : Museum.State) :
  Museum.lastPosition (Museum.orbitEffect false st) = Museum.lastPosition st.
Proof.
  unfold Museum.orbitEffect. destruct (gtb _ _); reflexivity.
Qed.

Lemma orbit_round_trip_from (st : Museum.State) (p : Vector3.t)
    (r : Euler.t) :
  Museum.lastPosition st <> Vector3.zero ->
  Museum.cameraPosition st <> Vector3.zero ->
  let back :=
    Museum.orbitEffect false
      (Museum.moveCamera p r (Museum.orbitEffect true st)) in
  Museum.cameraPosition back = Museum.cameraPosition st /\
  Museum.cameraRotation back = Museum.cameraRotation st.
Proof.
  intros Hl Hc. cbv zeta.
  assert (E : Vector3.equals (Museum.lastPosition st) Vector3.zero = false).
  { destruct (Vector3.equals _ _) eqn:E; [|reflexivity].
    apply equals_true_iff in E. contradiction. }
  assert (S1 : Museum.moveCamera p r (Museum.orbitEffect true st)
               = Museum.mk p r (Museum.cameraPosition st)
                   (Museum.cameraRotation st) (Museum.selectedObjectId st)
                   (Museum.selectionMode st)).
  { unfold Museum.orbitEffect, Museum.moveCamera. rewrite E. reflexivity. }
  rewrite S1. unfold Museum.orbitEffect.
  cbn [Museum.lastPosition].
  rewrite gtb_true by (apply nonzero_lengthSq, Hc).
  split; reflexivity.
Qed.

(** Round trip of the orbit switch: for a component whose camera effect has
    run and whose camera then stands anywhere but at the origin, switching
    the orbit controls on moves the camera to the overview (0, 10, 20), and
    switching them off again, wherever the orbit controls took the camera
    in between, puts position and rotation back exactly. *)
Theorem orbit_switch_restores_viewpoint (st0 : Museum.State)
    (p0 p : Vector3.t) (r0 r : Euler.t) :
  p0 <> Vector3.zero ->
  let st :=
    Museum.moveCamera p0 r0
      (Museum.orbitEffect false (Museum.initCamera st0)) in
  let overview := Museum.orbitEffect true st in
  let back := Museum.orbitEffect false (Museum.moveCamera p r overview) in
  Museum.cameraPosition overview = Vector3.mk 0 10 20 /\
  Museum.cameraPosition back = p0 /\
  Museum.cameraRotation back = r0.
Proof.
  intros Hp st overview back.
  split; [reflexivity|].
  apply (orbit_round_trip_from st p r).
  - unfold st. cbn [Museum.moveCamera Museum.lastPosition].
    rewrite orbitEffect_off_lastPosition. apply initCamera_lastPosition.
  - exact Hp.
Qed.

Lemma orbitEffect_keeps_zero (b : bool) (st : Museum.State) :
  Museum.lastPosition st = Vector3.zero ->
  Museum.lastPosition (Museum.orbitEffect b st) = Vector3.zero /\
  (b = false -> Museum.orbitEffect b st = st).
Proof.
  intros H. unfold Museum.orbitEffect. destruct b.
  - rewrite H.
    replace (Vector3.equals Vector3.zero Vector3.zero) with true
      by (symmetry; apply equals_true_iff; reflexivity).
    simpl. split; [exact H | discriminate].
  - rewrite H, gtb_false by (unfold Vector3.lengthSq; simpl; lra).
    split; [exact H | reflexivity].
Qed.

(** The origin is not a viewpoint the switch can save: if the camera stands
    exactly at (0, 0, 0) when the orbit controls are switched on, switching
    them off leaves the camera where the orbit controls took it, and from
    then on [lastPosition] stays zero, so no later switch saves or restores
    anything. *)
Theorem orbit_switch_from_origin_loses_viewpoint (st : Museum.State)
    (p : Vector3.t) (r : Euler.t) (b : bool) :
  Museum.cameraPosition st = Vector3.zero ->
  let back :=
    Museum.orbitEffect false
      (Museum.moveCamera p r (Museum.orbitEffect true st)) in
  Museum.cameraPosition back = p /\
  Museum.cameraRotation back = r /\
  Museum.lastPosition back = Vector3.zero /\
  Museum.lastPosition (Museum.orbitEffect b back) = Vector3.zero.
Proof.
  intros Hc. cbv zeta.
  assert (Z : Museum.lastPosition
                (Museum.moveCamera p r (Museum.orbitEffect true st))
              = Vector3.zero).
  { unfold Museum.orbitEffect, Museum.moveCamera.
    destruct (Vector3.equals (Museum.lastPosition st) Vector3.zero) eqn:E.
    - apply equals_true_iff in E. simpl. exact E.
    - simpl. exact Hc. }
  destruct (orbitEffect_keeps_zero false _ Z) as [Z1 Z2].
  rewrite (Z2 eq_refl). split; [reflexivity|]. split; [reflexivity|].
  split; [exact Z|]. apply orbitEffect_keeps_zero, Z.
Qed.

(** ** The selection *)

Lemma click_keeps_invariant (st : Museum.State) (c : Museum.Click) :
  nothingSelectedWhenOff st -> nothingSelectedWhenOff (Museum.click st c).
Proof.
  unfold nothingSelectedWhenOff. intros H. destruct c as [id|b|b]; simpl.
  - unfold Museum.handleObjectSelect.
    destruct (Museum.selectionMode st) eqn:E; simpl.
    + intros X. simpl in X. congruence.
    + intros _. apply H. reflexivity.
  - unfold Museum.handleBackgroundClick. destruct b; simpl; auto.
  - unfold Museum.setSelectionMode, Museum.selectionModeEffect. simpl.
    destruct b; simpl; [discriminate | reflexivity].
Qed.

(** Nothing is ever selected while the selection mode is off: the property
    holds after the switch is turned off in any state and is kept by every
    sequence of object clicks, background clicks and flips of the switch;
    with the mode off an object click changes nothing at all. *)
Theorem selection_needs_selection_mode (st : Museum.State)
    (clicks : list Museum.Click) (id : Z) :
  nothingSelectedWhenOff (Museum.setSelectionMode false st) /\
  (nothingSelectedWhenOff st ->
   nothingSelectedWhenOff (fold_left Museum.click clicks st)) /\
  (Museum.selectionMode st = false ->
   Museum.handleObjectSelect id st = st).
Proof.
  split; [|split].
  - intros _. reflexivity.
  - revert st. induction clicks as [|c clicks IH]; intros st H; [exact H|].
    simpl. apply IH, click_keeps_invariant, H.
  - intros H. unfold Museum.handleObjectSelect. rewrite H. reflexivity.
Qed.

(** In selection mode a click on an object selects it, unless it is the
    selected one, which it deselects; so two clicks on the same object give
    back the selection there was when nothing or that object was selected,
    and clear it when another object was. *)
Theorem object_click_toggles (st : Museum.State) (id : Z) :
  Museum.selectionMode st = true ->
  let twice :=
    Museum.handleObjectSelect id (Museum.handleObjectSelect id st) in
  (Museum.selectedObjectId st = None \/ Museum.selectedObjectId st = Some id
   -> twice = st) /\
  (forall other, Museum.selectedObjectId st = Some other -> other <> id ->
     Museum.selectedObjectId (Museum.handleObjectSelect id st) = Some id /\
     Museum.selectedObjectId twice = None).
Proof.
  intros Hm. cbv zeta. unfold Museum.handleObjectSelect.
  rewrite Hm. cbn [negb Museum.selectionMode Museum.setSelectedObjectId
                   Museum.selectedObjectId].
  split.
  - intros [E|E]; rewrite E; rewrite ?Z.eqb_refl; destruct st; simpl in *;
      subst; reflexivity.
  - intros other E Hne. rewrite E.
    assert (X : Z.eqb id other = false) by (apply Z.eqb_neq; congruence).
    rewrite X. cbn [Museum.selectionMode Museum.setSelectedObjectId
                    Museum.selectedObjectId].
    rewrite Hm, Z.eqb_refl. split; reflexivity.
Qed.

(** * Properties of InteractiveObject *)

(** ** The lookup *)

Lemma findIndex_Some (f : InteractiveObject.Object3D -> bool)
    (children : list InteractiveObject.Object3D) (i : nat) :
  InteractiveObject.findIndex f children = Some i ->
  (exists child, children !! i = Some child /\ f child = true) /\
  (forall j child, (j < i)%nat -> children !! j = Some child ->
                   f child = false).
Proof.
  revert i. induction children as [|c cs IH]; intros i H; [discriminate|].
  simpl in H. destruct (f c) eqn:F.
  - injection H as <-. split; [exists c; split; [reflexivity|exact F]|].
    intros j child Hj. lia.
  - destruct (InteractiveObject.findIndex f cs) as [k|] eqn:E;
      [|discriminate].
    simpl in H. injection H as <-. destruct (IH k eq_refl) as [H1 H2].
    split; [exact H1|].
    intros [|j] child Hj Hl.
    + simpl in Hl. injection Hl as <-. exact F.
    + simpl in Hl. apply (H2 j child); [lia | exact Hl].
Qed.

Lemma findIndex_None (f : InteractiveObject.Object3D -> bool)
    (children : list InteractiveObject.Object3D) :
  InteractiveObject.findIndex f children = None <->
  (forall i child, children !! i = Some child -> f child = false).
Proof.
  induction children as [|c cs IH]; simpl.
  - split; [intros _ i child H; discriminate | reflexivity].
  - destruct (f c) eqn:F.
    + split; [discriminate|]. intros H.
      specialize (H 0%nat c eq_refl). congruence.
    + destruct (InteractiveObject.findIndex f cs) as [k|] eqn:E; simpl.
      * split; [discriminate|]. intros H.
        destruct IH as [_ IH].
        assert (X : Some k = None).
        { apply IH. intros i child Hl. apply (H (S i) child Hl). }
        discriminate.
      * split; [|reflexivity]. intros _ [|i] child Hl.
        -- simpl in Hl. injection Hl as <-. exact F.
        -- simpl in Hl. destruct IH as [IH _]. apply (IH eq_refl i child Hl).
Qed.

(** The effect touches at most the first matching child: the scene keeps
    its length; every child that is not an invisible box mesh within 0.1 of
    the [position] prop on all three axes is left as it is; all children but
    at most one are left as they are; and with no matching child, or with
    the mesh ref unset, nothing changes. *)
Theorem collision_box_sync_touches_one_child (meshRef : option Vector3.t)
    (prop current : Vector3.t)
    (children : list InteractiveObject.Object3D) :
  let children' :=
    snd (InteractiveObject.effect meshRef prop current children) in
  length children' = length children /\
  (forall i child, children !! i = Some child ->
     InteractiveObject.isCollisionBox prop child = false ->
     children' !! i = Some child) /\
  (exists k, forall j, j <> k -> children' !! j = children !! j) /\
  (InteractiveObject.findIndex (InteractiveObject.isCollisionBox prop)
     children = None -> children' = children) /\
  (meshRef = None -> children' = children).
Proof.
  cbv zeta. unfold InteractiveObject.effect.
  destruct meshRef as [mp|]; cbn [snd].
  - destruct (InteractiveObject.findIndex _ children) as [k|] eqn:E.
    + destruct (findIndex_Some _ _ _ E) as [(c & Hc & Fc) _].
      split; [apply length_alter|]. split.
      * intros i child Hl Hf. destruct (decide (k = i)) as [<-|Hne].
        -- rewrite Hc in Hl. injection Hl as <-. congruence.
        -- rewrite list_lookup_alter_ne by exact Hne. exact Hl.
      * split.
        -- exists k. intros j Hj. apply list_lookup_alter_ne. auto.
        -- split; [discriminate|discriminate].
    + split; [reflexivity|]. split; [auto|].
      split; [exists 0%nat; reflexivity|]. split; reflexivity.
  - split; [reflexivity|]. split; [auto|].
    split; [exists 0%nat; reflexivity|]. split; reflexivity.
Qed.

Lemma isCollisionBox_copyPosition (prop p : Vector3.t)
    (child : InteractiveObject.Object3D) :
  InteractiveObject.isCollisionBox prop child = true ->
  InteractiveObject.isCollisionBox prop
    (InteractiveObject.copyPosition p child)
  = InteractiveObject.near (Vector3.x p) (Vector3.x prop)
    && InteractiveObject.near (Vector3.y p) (Vector3.y prop)
    && InteractiveObject.near (Vector3.z p) (Vector3.z prop).
Proof.
  unfold InteractiveObject.isCollisionBox. simpl. intros H.
  destruct (InteractiveObject.isMesh child);
    destruct (InteractiveObject.isBoxGeometry child);
    destruct (InteractiveObject.materialVisible child);
    simpl in *; try discriminate.
  reflexivity.
Qed.

(** The pairing is lost by a move of 0.1 or more: when exactly one child
    matches and the mesh is at least 0.1 away from the [position] prop on
    some axis, the effect moves that child to the mesh once, after which no
    child matches any more and every later run of the effect, wherever the
    mesh is, leaves the scene as it is. *)
Theorem collision_box_left_behind (prop current meshPosition : Vector3.t)
    (children : list InteractiveObject.Object3D) (i : nat) :
  InteractiveObject.findIndex (InteractiveObject.isCollisionBox prop)
    children = Some i ->
  (forall j child, j <> i -> children !! j = Some child ->
     InteractiveObject.isCollisionBox prop child = false) ->
  movedAway prop meshPosition ->
  let children' :=
    snd (InteractiveObject.effect (Some meshPosition) prop current
           children) in
  (exists child, children !! i = Some child /\
     children' !! i
     = Some (InteractiveObject.copyPosition meshPosition child)) /\
  InteractiveObject.findIndex (InteractiveObject.isCollisionBox prop)
    children' = None /\
  (forall later current',
     snd (InteractiveObject.effect (Some later) prop current' children')
     = children').
Proof.
  intros E U M. cbv zeta.
  assert (S1 : snd (InteractiveObject.effect (Some meshPosition) prop
                      current children)
               = alter (InteractiveObject.copyPosition meshPosition) i
                   children).
  { unfold InteractiveObject.effect. cbn [snd]. rewrite E. reflexivity. }
  rewrite !S1.
  destruct (findIndex_Some _ _ _ E) as [(c & Hc & Fc) _].
  assert (L : alter (InteractiveObject.copyPosition meshPosition) i children
                !! i
              = Some (InteractiveObject.copyPosition meshPosition c)).
  { rewrite list_lookup_alter_eq, Hc. reflexivity. }
  assert (N : InteractiveObject.findIndex
                (InteractiveObject.isCollisionBox prop)
                (alter (InteractiveObject.copyPosition meshPosition) i
                   children) = None).
  { apply findIndex_None. intros j child Hl.
    destruct (decide (i = j)) as [<-|Hne].
    - rewrite L in Hl. injection Hl as <-.
      rewrite isCollisionBox_copyPosition by exact Fc.
      destruct M as [M|[M|M]]; rewrite M; simpl;
        rewrite ?andb_false_r; reflexivity.
    - rewrite list_lookup_alter_ne in Hl by exact Hne.
      apply (U j child); [auto | exact Hl]. }
  split; [exists c; split; [exact Hc | exact L]|].
  split; [exact N|].
  intros later current'. unfold InteractiveObject.effect. cbn [snd].
  rewrite N. reflexivity.
Qed.

Lemma findIndex_alter_same (f : InteractiveObject.Object3D -> bool)
    (g : InteractiveObject.Object3D -> InteractiveObject.Object3D)
    (children : list InteractiveObject.Object3D) (i : nat) :
  InteractiveObject.findIndex f children = Some i ->
  (forall child, f child = true -> f (g child) = true) ->
  InteractiveObject.findIndex f (alter g i children) = Some i.
Proof.
  revert i. induction children as [|c cs IH]; intros i H Hg; [discriminate|].
  simpl in H. destruct (f c) eqn:F.
  - injection H as <-. simpl. rewrite (Hg c F). reflexivity.
  - destruct (InteractiveObject.findIndex f cs) as [k|] eqn:E;
      [|discriminate].
    simpl in H. injection H as <-. simpl. rewrite F.
    change (list_alter g k cs) with (alter g k cs).
    rewrite (IH k eq_refl Hg). reflexivity.
Qed.

(** While the mesh stays within 0.1 of the [position] prop on every axis,
    the same child keeps being found: two runs of the effect, for two such
    mesh positions in turn, leave the scene as one run for the second
    position does, the box being at the mesh. *)
Theorem collision_box_follows_small_moves (prop current p1 p2 : Vector3.t)
    (children : list InteractiveObject.Object3D) (i : nat) :
  InteractiveObject.findIndex (InteractiveObject.isCollisionBox prop)
    children = Some i ->
  InteractiveObject.near (Vector3.x p1) (Vector3.x prop) = true ->
  InteractiveObject.near (Vector3.y p1) (Vector3.y prop) = true ->
  InteractiveObject.near (Vector3.z p1) (Vector3.z prop) = true ->
  let once :=
    snd (InteractiveObject.effect (Some p1) prop current children) in
  let twice := snd (InteractiveObject.effect (Some p2) prop p1 once) in
  twice = snd (InteractiveObject.effect (Some p2) prop current children) /\
  exists child, children !! i = Some child /\
    twice !! i = Some (InteractiveObject.copyPosition p2 child).
Proof.
  intros E Nx Ny Nz. cbv zeta. unfold InteractiveObject.effect. cbn [snd].
  rewrite E.
  rewrite (findIndex_alter_same _ _ _ _ E).
  - rewrite list_alter_alter_eq.
    assert (X : alter (InteractiveObject.copyPosition p2
                       ∘ InteractiveObject.copyPosition p1) i children
                = alter (InteractiveObject.copyPosition p2) i children).
    { apply list_alter_ext; [|reflexivity]. intros c _. reflexivity. }
    rewrite X. split; [reflexivity|].
    destruct (findIndex_Some _ _ _ E) as [(c & Hc & _) _].
    exists c. split; [exact Hc|].
    rewrite list_lookup_alter_eq, Hc. reflexivity.
  - intros child F. rewrite isCollisionBox_copyPosition by exact F.
    rewrite Nx, Ny, Nz. reflexivity.
Qed.

(** ** Which colliders of Controls the objects of Museum find *)

Lemma near_true (a b : R) :
  -1 / 10 < a - b < 1 / 10 -> InteractiveObject.near a b = true.
Proof.
  intros H. unfold InteractiveObject.near. apply ltb_true.
  apply Rabs_def1; lra.
Qed.

Lemma near_false_hi (a b : R) :
  1 / 10 <= a - b -> InteractiveObject.near a b = false.
Proof.
  intros H. unfold InteractiveObject.near. apply ltb_false.
  rewrite Rabs_pos_eq; lra.
Qed.

Lemma near_false_lo (a b : R) :
  a - b <= -1 / 10 -> InteractiveObject.near a b = false.
Proof.
  intros H. unfold InteractiveObject.near. apply ltb_false.
  rewrite Rabs_left; lra.
Qed.

Ltac decide_near :=
  repeat match goal with
  | |- context [InteractiveObject.near ?a ?b] =>
      first [ rewrite (near_true a b) by lra
            | rewrite (near_false_hi a b) by lra
            | rewrite (near_false_lo a b) by lra ]
  end.

(** Of the twelve [InteractiveObject] elements of the scene, the five
    full-height walls (ids 7, 8, 9, 10 and 13) find the collider [Controls]
    built at their place; the two centre walls (ids 11 and 12, whose props
    are relative to their group) and the five display stands (ids 1 to 5,
    props at height 0.5 against colliders at height 1) find none of the
    colliders of [Controls]. *)
Theorem objects_paired_with_colliders :
  map (fun o =>
         (fst o,
          InteractiveObject.findIndex
            (InteractiveObject.isCollisionBox (snd o))
            (map asSceneChild builtWalls)))
      Museum.interactiveObjects
  = [ (7%Z, Some 1%nat); (8%Z, Some 2%nat); (9%Z, Some 3%nat);
      (10%Z, Some 4%nat); (11%Z, None); (12%Z, None); (13%Z, Some 7%nat);
      (1%Z, None); (2%Z, None); (3%Z, None); (4%Z, None); (5%Z, None) ].
Proof.
  unfold Museum.interactiveObjects, builtWalls, wallSpecs.
  cbn [map fst snd]. unfold asSceneChild, InteractiveObject.isCollisionBox.
  cbn [InteractiveObject.findIndex InteractiveObject.isMesh
       InteractiveObject.isBoxGeometry InteractiveObject.materialVisible
       InteractiveObject.position position Vector3.x Vector3.y Vector3.z
       andb negb].
  decide_near.
  reflexivity.
Qed.

(** No collider of [Controls] is within reach of the lookup of an object
    whose [position] prop is at least 0.1 away in height from both heights
    the colliders are built at, 2.5 and 1: for such an object the effect
    never moves a collider of [Controls]. *)
Theorem objects_off_collider_height_unpaired (prop current : Vector3.t)
    (meshRef : option Vector3.t) :
  InteractiveObject.near (25 / 10) (Vector3.y prop) = false ->
  InteractiveObject.near 1 (Vector3.y prop) = false ->
  InteractiveObject.findIndex (InteractiveObject.isCollisionBox prop)
    (map asSceneChild builtWalls) = None /\
  snd (InteractiveObject.effect meshRef prop current
         (map asSceneChild builtWalls))
  = map asSceneChild builtWalls.
Proof.
  intros H1 H2.
  assert (N : InteractiveObject.findIndex
                (InteractiveObject.isCollisionBox prop)
                (map asSceneChild builtWalls) = None).
  { unfold builtWalls, wallSpecs.
    cbn [map fst snd]. unfold asSceneChild, InteractiveObject.isCollisionBox.
    cbn [InteractiveObject.findIndex InteractiveObject.isMesh
         InteractiveObject.isBoxGeometry InteractiveObject.materialVisible
         InteractiveObject.position position Vector3.x Vector3.y Vector3.z
         andb negb].
    rewrite H1, H2. rewrite !andb_false_r. cbn [andb]. reflexivity. }
  split; [exact N|].
  unfold InteractiveObject.effect. destruct meshRef; cbn [snd];
    rewrite ?N; reflexivity.
Qed.

(** * The theorems at concrete inputs *)

(** Suspending while walking forward with KeyW held. *)
Lemma suspension_zeroes_target_on_next_key_up_witness :
  isInteracting (withInteracting true defaults) = true /\
  activeKeys
    (rerender obstacleAhead (withInteracting true defaults) 16 walkingForward)
  = activeKeys walkingForward /\
  targetVelocity
    (step obstacleAhead
       (rerender obstacleAhead (withInteracting true defaults) 16
          walkingForward)
       (KeyUp "KeyW"))
  = Vector3.zero.
Proof.
  pose proof (suspension_zeroes_target_on_next_key_up obstacleAhead
                walkingForward (withInteracting true defaults) 16 "KeyW" 32
                eq_refl) as H.
  cbv zeta in H. destruct H as (H1 & _ & _ & H3 & _).
  split; [reflexivity|]. split; [exact H1 | exact H3].
Defined.

(** Walking forward into the obstacle ahead: the frame is blocked. *)
Lemma blocked_frame_keeps_position_witness :
  moves defaults 16 walkingForward = true /\
  fst (probe obstacleAhead defaults (proposed defaults 16 walkingForward)
         (wallColliders walkingForward)) = true /\
  cameraPosition (animate obstacleAhead defaults 16 walkingForward)
  = cameraPosition walkingForward.
Proof.
  split; [exact walkingForward_moves|].
  split; [exact walkingForward_blocked|].
  pose proof (blocked_frame_keeps_position obstacleAhead defaults 16
                walkingForward walkingForward_moves walkingForward_blocked)
    as H.
  cbv zeta in H. destruct H as (_ & _ & H). exact H.
Defined.

Lemma unit_z_lengthSq : Vector3.lengthSq (Vector3.mk 0 0 1) = 1.
Proof. unfold Vector3.lengthSq. simpl. lra. Qed.

Lemma into_wall_dot :
  Vector3.dot (Vector3.mk 1 0 (- (28 / 10))) (Vector3.mk 0 0 1) < 0.
Proof. unfold Vector3.dot. simpl. lra. Qed.

Lemma defaults_wallSlideForce : 0 <= wallSlideForce defaults <= 1.
Proof. simpl. lra. Qed.

(** A velocity heading into a wall whose normal is (0, 0, 1). *)
Lemma resolution_slides_along_wall_witness :
  Vector3.lengthSq (Vector3.mk 0 0 1) = 1 /\
  Vector3.dot (Vector3.mk 1 0 (- (28 / 10))) (Vector3.mk 0 0 1) < 0 /\
  0 <= wallSlideForce defaults <= 1 /\
  0 <= Vector3.dot
         (resolveVelocity defaults (Vector3.mk 1 0 (- (28 / 10)))
            (Vector3.mk 0 0 1))
         (Vector3.mk 0 0 1) /\
  Vector3.length
    (resolveVelocity defaults (Vector3.mk 1 0 (- (28 / 10)))
       (Vector3.mk 0 0 1))
  <= Vector3.length
       (Vector3.projectOnPlane (Vector3.mk 1 0 (- (28 / 10)))
          (Vector3.mk 0 0 1)).
Proof.
  split; [exact unit_z_lengthSq|].
  split; [exact into_wall_dot|].
  split; [exact defaults_wallSlideForce|].
  pose proof (resolution_slides_along_wall defaults
                (Vector3.mk 1 0 (- (28 / 10))) (Vector3.mk 0 0 1)
                unit_z_lengthSq into_wall_dot defaults_wallSlideForce) as H.
  cbv zeta in H. destruct H as (_ & H2 & H3). split; [exact H2 | exact H3].
Defined.

Lemma defaults_damping : damping defaults.
Proof. unfold damping. simpl. lra. Qed.

(** The default settings, Forward and Left held. *)
Lemma speed_limit_preserved_witness :
  damping defaults /\
  Vector3.length
    (computeTargetVelocity defaults {["KeyW"; "KeyA"]} Quaternion.identity)
  <= moveSpeed defaults /\
  (speedBounded defaults walkingForward ->
   lastTime walkingForward <= 16 ->
   speedBounded defaults (animate obstacleAhead defaults 16 walkingForward)).
Proof.
  split; [exact defaults_damping|].
  pose proof (speed_limit_preserved obstacleAhead defaults walkingForward
                16 (16 / 1000) "KeyA" {["KeyW"; "KeyA"]} Quaternion.identity
                (Vector3.mk 0 0 (- (28 / 10))) (Vector3.mk 0 0 (- (28 / 10)))
                (Vector3.mk 0 0 1) defaults_damping) as H.
  destruct H as (H1 & _ & _ & _ & H5).
  split; [exact H1|].
  intros Hb Ht. destruct (H5 Hb) as (_ & _ & _ & H). exact (H Ht).
Defined.

(** Accelerating from rest towards full speed forward. *)
Lemma integration_frame_rate_independent_witness :
  Nat.iter 10
    (integrate defaults (1 / 100) (Vector3.mk 0 0 (- (28 / 10))))
    Vector3.zero
  = integrate defaults (1 / 10) (Vector3.mk 0 0 (- (28 / 10))) Vector3.zero.
Proof.
  exact (proj1 (integration_frame_rate_independent defaults
                  (Vector3.mk 0 0 (- (28 / 10))) Vector3.zero)).
Defined.

(** A frame at the clock reading of the previous one. *)
Lemma zero_delta_frame_does_not_move_witness :
  integrate defaults (frameDelta 1000 coasting) (targetVelocity coasting)
    (velocity coasting) = velocity coasting /\
  cameraPosition (animate nothingInReach defaults 1000 coasting)
  = cameraPosition coasting.
Proof.
  exact (proj2 (zero_delta_frame_does_not_move nothingInReach defaults 1000
                  coasting) eq_refl).
Defined.

Lemma inspecting_stays_suspended :
  staysSuspended
    [KeyDown "KeyW"; AnimationFrame 32;
     Rerender (withInteracting true defaults) 48].
Proof.
  intros env now [H|[H|[H|[]]]]; try discriminate.
  injection H as <- _. reflexivity.
Qed.

(** KeyW released while inspecting, pressed again while still inspecting,
    then the component resumes. *)
Lemma released_key_stays_released_witness :
  isInteracting (closure inspecting) = true /\
  staysSuspended
    [KeyDown "KeyW"; AnimationFrame 32;
     Rerender (withInteracting true defaults) 48] /\
  "KeyW" ∉
    activeKeys
      (step obstacleAhead
         (run obstacleAhead (step obstacleAhead inspecting (KeyUp "KeyW"))
            [KeyDown "KeyW"; AnimationFrame 32;
             Rerender (withInteracting true defaults) 48])
         (Rerender defaults 64)).
Proof.
  split; [reflexivity|]. split; [exact inspecting_stays_suspended|].
  exact (proj2 (proj2 (proj2
           (released_key_stays_released obstacleAhead inspecting "KeyW")))
           eq_refl _ defaults 64 inspecting_stays_suspended).
Defined.

(** The probe in front of the obstacle ahead. *)
Lemma probe_reports_nearest_collisions_witness :
  closestFirst obstacleAhead /\
  meshFaces obstacleAhead /\
  (fst (probe obstacleAhead defaults (Vector3.mk 0 (17 / 10) 6)
          (wallColliders walkingForward)) = true <->
   exists d nearest others,
     In d rays /\
     obstacleAhead (Vector3.mk 0 (17 / 10) 6) d (wallColliders walkingForward)
       = nearest :: others /\
     (forall h,
        In h (obstacleAhead (Vector3.mk 0 (17 / 10) 6) d
                (wallColliders walkingForward)) ->
        distance nearest <= distance h) /\
     distance nearest < collisionDistance defaults).
Proof.
  split; [exact obstacleAhead_closestFirst|].
  split; [exact obstacleAhead_meshFaces|].
  pose proof (probe_reports_nearest_collisions obstacleAhead defaults
                (Vector3.mk 0 (17 / 10) 6) walkingForward
                obstacleAhead_closestFirst obstacleAhead_meshFaces) as H.
  destruct H as (_ & _ & H & _). exact H.
Defined.

(** A short walk from eye height 1.7. *)
Lemma height_preserved_witness :
  pointsOnRay obstacleAhead /\
  Vector3.y
    (cameraPosition
       (run obstacleAhead
          (mount obstacleAhead defaults 0 16 (Vector3.mk 0 (17 / 10) 6)
             Quaternion.identity)
          [KeyDown "KeyW"; AnimationFrame 32; AnimationFrame 48;
           KeyUp "KeyW"; AnimationFrame 64]))
  = 17 / 10.
Proof.
  split; [exact obstacleAhead_pointsOnRay|].
  pose proof (height_preserved obstacleAhead defaults walkingForward 16
                {["KeyW"]} Quaternion.identity (Vector3.mk 0 (17 / 10) 6)
                [KeyDown "KeyW"; AnimationFrame 32; AnimationFrame 48;
                 KeyUp "KeyW"; AnimationFrame 64]
                obstacleAhead_pointsOnRay) as H.
  destruct H as (_ & _ & _ & _ & _ & _ & _ & H). exact (H 0).
Defined.

(** ** The further properties at concrete inputs *)

Lemma walkingForward_free :
  fst (probe nothingInReach defaults (proposed defaults 16 walkingForward)
         (wallColliders walkingForward)) = false.
Proof. reflexivity. Qed.

Lemma walkingForward_advances :
  cameraPosition (animate nothingInReach defaults 16 walkingForward)
  <> cameraPosition walkingForward.
Proof.
  rewrite animate_free by (exact walkingForward_moves || reflexivity).
  cbn [cameraPosition setCameraPosition]. unfold proposed.
  rewrite walkingForward_integrated.
  rewrite frameDelta_unclamped by (simpl; lra).
  intros H. apply (f_equal Vector3.z) in H. simpl in H. lra.
Qed.

(** Walking forward with nothing in reach. *)
Lemma camera_moves_only_to_clear_positions_witness :
  closestFirst nothingInReach /\
  cameraPosition (animate nothingInReach defaults 16 walkingForward)
    <> cameraPosition walkingForward /\
  cameraPosition (animate nothingInReach defaults 16 walkingForward)
    = proposed defaults 16 walkingForward.
Proof.
  split; [exact nothingInReach_closestFirst|].
  split; [exact walkingForward_advances|].
  exact (proj1 (camera_moves_only_to_clear_positions nothingInReach defaults
                  16 walkingForward nothingInReach_closestFirst
                  walkingForward_advances)).
Defined.

Lemma walkingForward_speedBounded : speedBounded defaults walkingForward.
Proof.
  assert (L : Vector3.length (Vector3.mk 0 0 (- (28 / 10))) <= 28 / 10).
  { apply length_le_iff; [lra|]. unfold Vector3.lengthSq. simpl. lra. }
  split; exact L.
Qed.

Lemma walkingForward_clock : lastTime walkingForward <= 5000.
Proof. simpl. lra. Qed.

(** A frame five seconds after the last one. *)
Lemma frame_displacement_bounded_witness :
  damping defaults /\
  lastTime walkingForward <= 5000 /\
  speedBounded defaults walkingForward /\
  Vector3.length
    (Vector3.sub (cameraPosition (animate obstacleAhead defaults 5000
                                    walkingForward))
       (cameraPosition walkingForward))
  <= moveSpeed defaults * (1 / 10).
Proof.
  split; [exact defaults_damping|].
  split; [exact walkingForward_clock|].
  split; [exact walkingForward_speedBounded|].
  exact (frame_displacement_bounded obstacleAhead defaults 5000
           walkingForward defaults_damping walkingForward_clock
           walkingForward_speedBounded).
Defined.

Lemma defaults_deceleration : 0 < deceleration defaults.
Proof. simpl. lra. Qed.

Lemma sixteen_positive : 0 < 16.
Proof. lra. Qed.

(** Coasting with the default settings at sixty frames a second. *)
Lemma coasting_comes_to_rest_witness :
  0 < deceleration defaults /\
  0 <= wallSlideForce defaults <= 1 /\
  0 < 16 /\
  targetVelocity coasting = Vector3.zero /\
  exists N, forall n, (N <= n)%nat ->
    Vector3.lengthSq (velocity (frames obstacleAhead defaults 16 n coasting))
      < 1 / 10000 /\
    cameraPosition (frames obstacleAhead defaults 16 (S n) coasting)
      = cameraPosition (frames obstacleAhead defaults 16 n coasting).
Proof.
  split; [exact defaults_deceleration|].
  split; [exact defaults_wallSlideForce|].
  split; [exact sixteen_positive|].
  split; [reflexivity|].
  exact (proj2 (coasting_comes_to_rest obstacleAhead defaults 16 coasting
                  defaults_deceleration defaults_wallSlideForce
                  sixteen_positive eq_refl)).
Defined.

(** The default settings, the camera in its initial orientation. *)
Lemma single_key_targets_witness :
  isInteracting defaults = false /\
  computeTargetVelocity defaults {["KeyW"]} Quaternion.identity
    = Vector3.multiplyScalar (forwardOf Quaternion.identity)
        (moveSpeed defaults).
Proof.
  split; [reflexivity|].
  exact (proj1 (single_key_targets defaults Quaternion.identity eq_refl)).
Defined.

Lemma lerp_same (v : Vector3.t) (a : R) : Vector3.lerp v v a = v.
Proof. apply vec_eq; simpl; ring. Qed.

Lemma inspecting_old_loop_moves :
  moves (closure walkingForward) 32
    (rerender nothingInReach (withInteracting true defaults) 16
       walkingForward) = true.
Proof.
  rewrite rerender_animate, animate_interacting by reflexivity.
  unfold moves, integrated.
  cbn [targetVelocity velocity setVelocity setLastTime setClosure
       setWallColliders walkingForward closure].
  rewrite (integrate_nonzero_target (withInteracting true defaults))
    by (intros E; apply (f_equal Vector3.z) in E; simpl in E; lra).
  rewrite lerp_same.
  rewrite (integrate_nonzero_target defaults)
    by (intros E; apply (f_equal Vector3.z) in E; simpl in E; lra).
  rewrite lerp_same.
  rewrite gtb_true; [reflexivity|].
  unfold Vector3.lengthSq. simpl. lra.
Qed.

(** Suspending while walking forward: the loop of the closure that was
    replaced moves the camera in its next frame. *)
Lemma replaced_loop_still_moves_camera_witness :
  cameraPosition
    (step nothingInReach
       (rerender nothingInReach (withInteracting true defaults) 16
          walkingForward)
       (StaleFrame 0 32))
  = proposed defaults 32
      (rerender nothingInReach (withInteracting true defaults) 16
         walkingForward).
Proof.
  exact (proj2 (replaced_loop_still_moves_camera nothingInReach
                  walkingForward (withInteracting true defaults) 16 32)
           inspecting_old_loop_moves eq_refl).
Defined.

(** KeyW held on both sides; KeyW is released and KeyA pressed while
    inspecting, then the component resumes. *)
Lemma hud_keys_follow_controls_witness :
  App.activeKeys arrows = activeKeys walkingForward /\
  App.isInteracting arrows = isInteracting (closure walkingForward) /\
  App.activeKeys
    (appRun arrows
       [Rerender (withInteracting true defaults) 16; KeyUp "KeyW";
        KeyDown "KeyA"; Rerender defaults 48; KeyDown "KeyD"])
  = activeKeys
      (run obstacleAhead walkingForward
         [Rerender (withInteracting true defaults) 16; KeyUp "KeyW";
          KeyDown "KeyA"; Rerender defaults 48; KeyDown "KeyD"]).
Proof.
  split; [reflexivity|]. split; [reflexivity|].
  exact (proj1 (hud_keys_follow_controls obstacleAhead
                  [Rerender (withInteracting true defaults) 16; KeyUp "KeyW";
                   KeyDown "KeyA"; Rerender defaults 48; KeyDown "KeyD"]
                  walkingForward arrows eq_refl eq_refl)).
Defined.

Lemma space_is_no_movement_key (code : string) :
  In code ["KeyW"; "KeyS"; "KeyA"; "KeyD"] ->
  (code ∈ ({["KeyW"]} : gset string) <->
   code ∈ ({["Space"; "KeyW"]} : gset string)).
Proof.
  intros H. rewrite elem_of_union, !elem_of_singleton. split.
  - intros ->. right. reflexivity.
  - intros [E|E]; [|exact E]. subst code.
    simpl in H. destruct H as [H|[H|[H|[H|[]]]]]; discriminate.
Qed.

(** The space bar held next to KeyW. *)
Lemma other_keys_do_not_steer_witness :
  computeTargetVelocity defaults {["KeyW"]} Quaternion.identity
  = computeTargetVelocity defaults {["Space"; "KeyW"]} Quaternion.identity.
Proof.
  exact (other_keys_do_not_steer defaults {["KeyW"]} {["Space"; "KeyW"]}
           Quaternion.identity space_is_no_movement_key).
Defined.

Lemma coasting_holds_nothing : "KeyW" ∉ activeKeys coasting.
Proof. simpl. apply not_elem_of_empty. Qed.

(** A tap on KeyW while coasting. *)
Lemma key_repeat_and_tap_witness :
  ("KeyW" ∉ activeKeys coasting) /\
  activeKeys (handleKeyUp defaults "KeyW"
                (handleKeyDown defaults "KeyW" coasting))
  = activeKeys coasting.
Proof.
  split; [exact coasting_holds_nothing|].
  exact (proj2 (proj2 (key_repeat_and_tap defaults "KeyW" coasting))
           coasting_holds_nothing).
Defined.

Lemma visitor_place : Vector3.mk 2 (17 / 10) 3 <> Vector3.zero.
Proof. intros H. apply (f_equal Vector3.x) in H. simpl in H. lra. Qed.

(** A visitor at (2, 1.7, 3) switches to the overview and back. *)
Lemma orbit_switch_restores_viewpoint_witness :
  Vector3.mk 2 (17 / 10) 3 <> Vector3.zero /\
  Museum.cameraPosition
    (Museum.orbitEffect false
       (Museum.moveCamera (Vector3.mk 5 12 9) (Euler.mk 1 2 0 "XYZ")
          (Museum.orbitEffect true
             (Museum.moveCamera (Vector3.mk 2 (17 / 10) 3)
                (Euler.mk 0 1 0 "XYZ")
                (Museum.orbitEffect false (Museum.initCamera visitor))))))
  = Vector3.mk 2 (17 / 10) 3.
Proof.
  split; [exact visitor_place|].
  pose proof (orbit_switch_restores_viewpoint visitor
                (Vector3.mk 2 (17 / 10) 3) (Vector3.mk 5 12 9)
                (Euler.mk 0 1 0 "XYZ") (Euler.mk 1 2 0 "XYZ")
                visitor_place) as H.
  cbv zeta in H. exact (proj1 (proj2 H)).
Defined.

(** The camera at the origin when the overview is switched on. *)
Lemma orbit_switch_from_origin_loses_viewpoint_witness :
  Museum.cameraPosition atOrigin = Vector3.zero /\
  Museum.cameraPosition
    (Museum.orbitEffect false
       (Museum.moveCamera (Vector3.mk 5 12 9) (Euler.mk 1 2 0 "XYZ")
          (Museum.orbitEffect true atOrigin)))
  = Vector3.mk 5 12 9.
Proof.
  split; [reflexivity|].
  pose proof (orbit_switch_from_origin_loses_viewpoint atOrigin
                (Vector3.mk 5 12 9) (Euler.mk 1 2 0 "XYZ") true eq_refl)
    as H.
  cbv zeta in H. exact (proj1 H).
Defined.

Lemma visitor_unselected : nothingSelectedWhenOff visitor.
Proof. intros _. reflexivity. Qed.

(** Clicks on objects and a flip of the switch, from nothing selected. *)
Lemma selection_needs_selection_mode_witness :
  nothingSelectedWhenOff visitor /\
  nothingSelectedWhenOff
    (fold_left Museum.click
       [Museum.ObjectClick 3; Museum.PanelSelectionMode true;
        Museum.ObjectClick 3; Museum.PanelSelectionMode false;
        Museum.ObjectClick 5]
       visitor).
Proof.
  split; [exact visitor_unselected|].
  exact (proj1 (proj2 (selection_needs_selection_mode visitor
                         [Museum.ObjectClick 3;
                          Museum.PanelSelectionMode true;
                          Museum.ObjectClick 3;
                          Museum.PanelSelectionMode false;
                          Museum.ObjectClick 5] 3%Z))
           visitor_unselected).
Defined.

(** Two clicks on the selected object. *)
Lemma object_click_toggles_witness :
  Museum.selectionMode selecting = true /\
  Museum.handleObjectSelect 3 (Museum.handleObjectSelect 3 selecting)
  = selecting.
Proof.
  split; [reflexivity|].
  pose proof (object_click_toggles selecting 3%Z eq_refl) as H.
  cbv zeta in H. exact (proj1 H (or_intror eq_refl)).
Defined.

Lemma smallScene_found :
  InteractiveObject.findIndex
    (InteractiveObject.isCollisionBox (Vector3.mk (-10) (25 / 10) (-5)))
    smallScene = Some 1%nat.
Proof.
  unfold smallScene, asSceneChild, InteractiveObject.isCollisionBox.
  cbn [InteractiveObject.findIndex InteractiveObject.isMesh
       InteractiveObject.isBoxGeometry InteractiveObject.materialVisible
       InteractiveObject.position position Vector3.x Vector3.y Vector3.z
       andb negb].
  decide_near. reflexivity.
Qed.

Lemma smallScene_unique (j : nat) (child : InteractiveObject.Object3D) :
  j <> 1%nat -> smallScene !! j = Some child ->
  InteractiveObject.isCollisionBox (Vector3.mk (-10) (25 / 10) (-5)) child
  = false.
Proof.
  intros Hj Hl. destruct j as [|[|j]]; [|contradiction|discriminate].
  simpl in Hl. injection Hl as <-. reflexivity.
Qed.

Lemma two_units_along_z :
  movedAway (Vector3.mk (-10) (25 / 10) (-5))
    (Vector3.mk (-10) (25 / 10) (-3)).
Proof.
  right. right. cbn [Vector3.z]. apply near_false_hi. lra.
Qed.

(** The sync leaves the visible mesh of the small scene alone. *)
Lemma collision_box_sync_touches_one_child_witness :
  snd (InteractiveObject.effect (Some (Vector3.mk (-10) (25 / 10) (-3)))
         (Vector3.mk (-10) (25 / 10) (-5)) Vector3.zero smallScene)
    !! 0%nat
  = smallScene !! 0%nat.
Proof.
  pose proof (collision_box_sync_touches_one_child
                (Some (Vector3.mk (-10) (25 / 10) (-3)))
                (Vector3.mk (-10) (25 / 10) (-5)) Vector3.zero smallScene)
    as H.
  cbv zeta in H. destruct H as (_ & H & _).
  exact (H 0%nat _ eq_refl eq_refl).
Defined.

(** The left front wall dragged two units along z. *)
Lemma collision_box_left_behind_witness :
  InteractiveObject.findIndex
    (InteractiveObject.isCollisionBox (Vector3.mk (-10) (25 / 10) (-5)))
    smallScene = Some 1%nat /\
  movedAway (Vector3.mk (-10) (25 / 10) (-5))
    (Vector3.mk (-10) (25 / 10) (-3)) /\
  InteractiveObject.findIndex
    (InteractiveObject.isCollisionBox (Vector3.mk (-10) (25 / 10) (-5)))
    (snd (InteractiveObject.effect
            (Some (Vector3.mk (-10) (25 / 10) (-3)))
            (Vector3.mk (-10) (25 / 10) (-5)) Vector3.zero smallScene))
  = None.
Proof.
  split; [exact smallScene_found|]. split; [exact two_units_along_z|].
  pose proof (collision_box_left_behind (Vector3.mk (-10) (25 / 10) (-5))
                Vector3.zero (Vector3.mk (-10) (25 / 10) (-3)) smallScene
                1%nat smallScene_found smallScene_unique two_units_along_z)
    as H.
  cbv zeta in H. exact (proj1 (proj2 H)).
Defined.

Lemma nudge_x :
  InteractiveObject.near (Vector3.x (Vector3.mk (-10) (25 / 10) (-496 / 100)))
    (Vector3.x (Vector3.mk (-10) (25 / 10) (-5))) = true.
Proof. cbn [Vector3.x]. apply near_true. lra. Qed.

Lemma nudge_y :
  InteractiveObject.near (Vector3.y (Vector3.mk (-10) (25 / 10) (-496 / 100)))
    (Vector3.y (Vector3.mk (-10) (25 / 10) (-5))) = true.
Proof. cbn [Vector3.y]. apply near_true. lra. Qed.

Lemma nudge_z :
  InteractiveObject.near (Vector3.z (Vector3.mk (-10) (25 / 10) (-496 / 100)))
    (Vector3.z (Vector3.mk (-10) (25 / 10) (-5))) = true.
Proof. cbn [Vector3.z]. apply near_true. lra. Qed.

(** The left front wall nudged by 0.04, then dragged on. *)
Lemma collision_box_follows_small_moves_witness :
  snd (InteractiveObject.effect (Some (Vector3.mk (-10) (25 / 10) (-3)))
         (Vector3.mk (-10) (25 / 10) (-5))
         (Vector3.mk (-10) (25 / 10) (-496 / 100))
         (snd (InteractiveObject.effect
                 (Some (Vector3.mk (-10) (25 / 10) (-496 / 100)))
                 (Vector3.mk (-10) (25 / 10) (-5)) Vector3.zero smallScene)))
  = snd (InteractiveObject.effect (Some (Vector3.mk (-10) (25 / 10) (-3)))
           (Vector3.mk (-10) (25 / 10) (-5)) Vector3.zero smallScene).
Proof.
  pose proof (collision_box_follows_small_moves
                (Vector3.mk (-10) (25 / 10) (-5)) Vector3.zero
                (Vector3.mk (-10) (25 / 10) (-496 / 100))
                (Vector3.mk (-10) (25 / 10) (-3)) smallScene 1%nat
                smallScene_found nudge_x nudge_y nudge_z) as H.
  cbv zeta in H. exact (proj1 H).
Defined.

Lemma stand_below_walls :
  InteractiveObject.near (25 / 10)
    (Vector3.y (Vector3.mk (-3) (5 / 10) 5)) = false.
Proof. cbn [Vector3.y]. apply near_false_hi. lra. Qed.

Lemma stand_below_stand_colliders :
  InteractiveObject.near 1 (Vector3.y (Vector3.mk (-3) (5 / 10) 5)) = false.
Proof. cbn [Vector3.y]. apply near_false_hi. lra. Qed.

(** The front left stand, dragged to (0, 0.5, 5). *)
Lemma objects_off_collider_height_unpaired_witness :
  InteractiveObject.near (25 / 10)
    (Vector3.y (Vector3.mk (-3) (5 / 10) 5)) = false /\
  InteractiveObject.near 1 (Vector3.y (Vector3.mk (-3) (5 / 10) 5)) = false /\
  snd (InteractiveObject.effect (Some (Vector3.mk 0 (5 / 10) 5))
         (Vector3.mk (-3) (5 / 10) 5) Vector3.zero
         (map asSceneChild builtWalls))
  = map asSceneChild builtWalls.
Proof.
  split; [exact stand_below_walls|].
  split; [exact stand_below_stand_colliders|].
  exact (proj2 (objects_off_collider_height_unpaired
                  (Vector3.mk (-3) (5 / 10) 5) Vector3.zero
                  (Some (Vector3.mk 0 (5 / 10) 5))
                  stand_below_walls stand_below_stand_colliders)).
Defined.
